(** * NFSv3 target layer (nfs/target.go): a shallow embedding and its properties

    The Go code talks to a server through [rpc.Client.Call] and decodes the
    reply with [xdr.Read].  Both are external to [target.go]; here the
    channel is a state machine [rpcCall] over an arbitrary state [W] and a
    reply is a sequence of decoded XDR values.  Every function of
    [target.go] is a computation in a small state-and-error monad that
    threads the channel state and a log of the calls made. *)

From Stdlib Require Import ZArith List Bool Lia PeanoNat.
From Stdlib Require Import Strings.String Strings.Ascii Strings.Byte.
Import ListNotations.

Local Open Scope Z_scope.
Local Open Scope list_scope.

(* ================================================================== *)
(** ** Go values *)

(** A Go [[]byte]: [None] is the nil slice, [Some l] a non-nil slice with
    contents [l].  [len] and indexing do not tell nil from empty; [== nil]
    does. *)
Definition Bytes : Type := option (list byte).

Definition len (s : Bytes) : nat :=
  match s with
  | None => 0%nat
  | Some l => List.length l
  end.

Definition elems (s : Bytes) : list byte :=
  match s with
  | None => []
  | Some l => l
  end.

Definition index (s : Bytes) (i : nat) : option byte := nth_error (elems s) i.

Definition is_nil (s : Bytes) : bool :=
  match s with
  | None => true
  | Some _ => false
  end.

(** [strings.Split(s, sep)] for a one-character separator: the substrings
    between the separators, one more than there are separators. *)
Fixpoint strings_Split (s : string) (sep : ascii) : list string :=
  match s with
  | EmptyString => [EmptyString]
  | String c rest =>
      if Ascii.eqb c sep then EmptyString :: strings_Split rest sep
      else match strings_Split rest sep with
           | hd :: tl => String c hd :: tl
           | [] => [String c EmptyString]
           end
  end.

(** [strings.LastIndex(s, sep)] for a one-character separator; [None] is
    Go's -1. *)
Fixpoint strings_LastIndex (s : string) (sep : ascii) : option nat :=
  match s with
  | EmptyString => None
  | String c rest =>
      match strings_LastIndex rest sep with
      | Some i => Some (S i)
      | None => if Ascii.eqb c sep then Some 0%nat else None
      end
  end.

(** [path.Split]: [i := strings.LastIndex(path, "/"); return path[:i+1],
    path[i+1:]]. *)
Definition path_Split (path : string) : string * string :=
  let i1 := match strings_LastIndex path "/" with
            | Some i => S i
            | None => 0%nat
            end in
  (String.substring 0 i1 path,
   String.substring i1 (String.length path - i1) path).

(** [os.FileMode.Perm]: [m & ModePerm], with [ModePerm = 0o777]. *)
Definition Perm (m : Z) : Z := Z.land m 511.

(* ================================================================== *)
(** ** sameHandle *)

(** The [for i, av := range a] loop of [sameHandle], from index [i] on.
    [b[i]] out of range panics in Go; the length test before the loop
    excludes it (lemma [sameHandle_range_in_bounds]). *)
Fixpoint sameHandle_range (a : list byte) (i : nat) (b : Bytes) : bool :=
  match a with
  | [] => true
  | av :: a' =>
      match index b i with
      | Some bv =>
          if negb (Byte.eqb bv av) then false
          else sameHandle_range a' (S i) b
      | None => false
      end
  end.

Definition sameHandle (a b : Bytes) : bool :=
  if negb (Nat.eqb (len a) (len b)) then false
  else sameHandle_range (elems a) 0 b.

(* ================================================================== *)
(** ** Wire structures *)

(** Modelled from the spec: [rpc.Auth], [rpc.AuthNull] and [rpc.Header]
    are declared in the rpc package, outside [target.go].  The header is
    the standard RPC call header of the spec's section 4.1; [AuthNull] is
    the zero [Auth]. *)
Record Auth := { Flavor : Z; Body : Bytes }.

Definition AuthNull : Auth := {| Flavor := 0; Body := None |}.

Record Header := {
  Rpcvers : Z;
  Prog : Z;
  Vers : Z;
  Proc : Z;
  Cred : Auth;
  Verf : Auth
}.

(** Modelled from the spec: the program, version and procedure numbers are
    constants declared outside [target.go]; the spec's section 6 gives
    program 100003 and version 3, the procedure numbers are RFC 1813's. *)
Definition Nfs3Prog : Z := 100003.
Definition Nfs3Vers : Z := 3.
Definition NFSProc3GetAttr : Z := 1.
Definition NFSProc3SetAttr : Z := 2.
Definition NFSProc3Lookup : Z := 3.
Definition NFSProc3Access : Z := 4.
Definition NFSProc3Readlink : Z := 5.
Definition NFSProc3Create : Z := 8.
Definition NFSProc3Mkdir : Z := 9.
Definition NFSProc3Remove : Z := 12.
Definition NFSProc3RmDir : Z := 13.
Definition NFSProc3Rename : Z := 14.
Definition NFSProc3ReadDirPlus : Z := 17.
Definition NFSProc3FSInfo : Z := 19.

(** Modelled from the spec: the file types and status codes are constants
    declared outside [target.go]; values are RFC 1813's. *)
Definition NF3Reg : Z := 1.
Definition NF3Dir : Z := 2.
Definition NF3Lnk : Z := 5.
Definition NFS3Ok : Z := 0.
Definition NFS3ErrNoEnt : Z := 2.
Definition NFS3ErrNotDir : Z := 20.
Definition NFS3ErrIsDir : Z := 21.
Definition NFS3ErrNotEmpty : Z := 66.
Definition NFS3ErrStale : Z := 70.

(** Modelled from the spec: the attribute structures of section 3 are
    declared outside [target.go], which reads [Fattr.FileMode],
    [Fattr.Type], [PostOpAttr.Attr], [PostOpFH3.IsSet] and
    [PostOpFH3.FH]. *)
Record NFS3Time := { Seconds : Z; Nseconds : Z }.

Record Fattr := {
  Type_ : Z;
  FileMode : Z;
  Nlink : Z;
  UID : Z;
  GID : Z;
  Filesize : Z;
  Used : Z;
  SpecData : Z * Z;
  FSID : Z;
  Fileid : Z;
  Atime : NFS3Time;
  Mtime : NFS3Time;
  Ctime : NFS3Time
}.

Definition zeroTime : NFS3Time := {| Seconds := 0; Nseconds := 0 |}.

(** The zero value of [Fattr], what a Go struct holds before decoding. *)
Definition zeroFattr : Fattr :=
  {| Type_ := 0; FileMode := 0; Nlink := 0; UID := 0; GID := 0;
     Filesize := 0; Used := 0; SpecData := (0, 0); FSID := 0; Fileid := 0;
     Atime := zeroTime; Mtime := zeroTime; Ctime := zeroTime |}.

Module PostOpAttr.
Record t := { IsSet : bool; Attr : Fattr }.
(** Decoding the XDR union: the payload is read iff the discriminant is
    set, otherwise the field keeps its zero value. *)
Definition decode (x : option Fattr) : t :=
    match x with
    | Some a => {| IsSet := true; Attr := a |}
    | None => {| IsSet := false; Attr := zeroFattr |}
    end.
End PostOpAttr.

Module PostOpFH3.
Record t := { IsSet : bool; FH : Bytes }.
Definition decode (x : option (list byte)) : t :=
    match x with
    | Some h => {| IsSet := true; FH := Some h |}
    | None => {| IsSet := false; FH := None |}
    end.
End PostOpFH3.

(** Weak cache consistency data; the core decodes it and never looks
    inside. *)
Record WccData := {
  Before : option (Z * NFS3Time * NFS3Time);
  After : option Fattr
}.

(** Modelled from the spec: the FSINFO record (block hints, maximum file
    size, time delta, properties); never inspected by [target.go]. *)
Record FSInfo := {
  RTMax : Z; RTPref : Z; RTMult : Z;
  WTMax : Z; WTPref : Z; WTMult : Z;
  DTPref : Z;
  Size : Z;
  TimeDelta : NFS3Time;
  Properties : Z
}.

Module Diropargs3.
Record t := { FH : Bytes; Filename : string }.
End Diropargs3.

Module SetMode.
Record t := { SetIt : bool; Mode : Z }.
Definition zero : t := {| SetIt := false; Mode := 0 |}.
End SetMode.

Module SetSize.
Record t := { SetIt : bool; Size : Z }.
Definition zero : t := {| SetIt := false; Size := 0 |}.
End SetSize.

Module SetID.
Record t := { SetIt : bool; ID : Z }.
Definition zero : t := {| SetIt := false; ID := 0 |}.
End SetID.

Module SetTime.
Record t := { SetIt : Z; Time : NFS3Time }.
Definition zero : t := {| SetIt := 0; Time := zeroTime |}.
End SetTime.

Module Sattr3.
Record t := {
    Mode : SetMode.t;
    UID : SetID.t;
    GID : SetID.t;
    Size : SetSize.t;
    Atime : SetTime.t;
    Mtime : SetTime.t
  }.
End Sattr3.

Module How.
Record t := { Mode : Z; Attr : Sattr3.t }.
End How.

Module Guard.
Record t := { Check : bool; Ctime : NFS3Time }.
End Guard.

Module EntryPlus.
Record t := {
    FileId : Z;
    FileName : string;
    Cookie : Z;
    Attr : PostOpAttr.t;
    Handle : PostOpFH3.t
  }.
End EntryPlus.

(** The argument structures declared inside the functions of [target.go];
    each embeds an [rpc.Header], kept apart here in [Request]. *)
Inductive Args :=
| FSInfoArgs (FsRoot : Bytes)
| Lookup3Args (What : Diropargs3.t)
| Access3Args (FH : Bytes) (Access : Z)
| ReadDirPlus3Args (FH : Bytes) (Cookie CookieVerf DirCount MaxCount : Z)
| MkdirArgs (Where : Diropargs3.t) (Attrs : Sattr3.t)
| Create3Args (Where : Diropargs3.t) (HW : How.t)
| GetAttrArgs (FH : Bytes)
| GetAttr3Args (FH : Bytes)
| RemoveArgs (Object : Diropargs3.t)
| RmDir3Args (Object : Diropargs3.t)
| SetAttr3Args (FH : Bytes) (Fattr : Sattr3.t) (Guard : Guard.t)
| Rename3Args (From To : Diropargs3.t)
| Readlink3Arg (FH : Bytes).

Record Request := { header : Header; args : Args }.

(** The reply structures declared inside the functions of [target.go]. *)
Module LookupOk.
Record t := { FH : Bytes; Attr : PostOpAttr.t; DirAttr : PostOpAttr.t }.
End LookupOk.

Module AccessOk.
Record t := { Attr : PostOpAttr.t; Access : Z }.
End AccessOk.

Module DirListOK.
Record t := { DirAttrs : PostOpAttr.t; CookieVerf : Z }.
End DirListOK.

Module DirListPlus3.
Record t := { IsSet : bool; Entry : EntryPlus.t }.
End DirListPlus3.

(** [MkdirOk] and [Create3Res] have the same fields. *)
Module Create3Res.
Record t := { FH : PostOpFH3.t; Attr : PostOpAttr.t; DirWcc : WccData }.
End Create3Res.

Module Rename3Res.
Record t := { FromDirWcc : WccData; ToDirWcc : WccData }.
End Rename3Res.

Module Readlink3Ok.
Record t := { SymlinkAttr : PostOpAttr.t; Target : string }.
End Readlink3Ok.

(* ================================================================== *)
(** ** Replies and errors *)

(** Modelled from the spec: the XDR codec is outside [target.go].  A reply
    body is the sequence of values the server encoded; [xdr.Read] at a Go
    type consumes the next value when it has that type's wire shape and
    fails otherwise.  Optional data is an [option]; decoding fills the Go
    union structure. *)
Inductive XdrValue :=
| XUint32 (n : Z)
| XBool (b : bool)
| XFSInfo (i : FSInfo)
| XLookupOk (fh : list byte) (attr dirattr : option Fattr)
| XAccessOk (attr : option Fattr) (access : Z)
| XDirListOK (dirattrs : option Fattr) (cookieverf : Z)
| XDirListPlus3
    (item : option (Z * string * Z * option Fattr * option (list byte)))
| XCreate3Res (fh : option (list byte)) (attr : option Fattr) (wcc : WccData)
| XFattr (a : Fattr)
| XWccData (w : WccData)
| XRename3Res (fromwcc towcc : WccData)
| XReadlink3Ok (attr : option Fattr) (target : string).

Definition Reader : Type := list XdrValue.

(** Go [error] values: what [rpc.Client.Call] reports, what [xdr.Read]
    reports, [NFS3Error(status)] for a nonzero status, and [fmt.Errorf]. *)
Inductive error :=
| ErrTransport (code : Z)
| ErrDecode
| ErrNFS (status : Z)
| Errorf (msg : string).

(** What [rpc.Client.Call] returns: [(io.ReadSeeker, error)]. *)
Definition Reply : Type := (error + Reader)%type.

(** Modelled from the spec: [NFS3Error] maps a nonzero status to a named
    error and status zero to nil. *)
Definition NFS3Error (status : Z) : option error :=
  if status =? NFS3Ok then None else Some (ErrNFS status).

(** Modelled from the spec: [os.IsNotExist] holds of the NOENT and STALE
    errors, [IsNotDirError] of the NOTDIR error (section 7). *)
Definition os_IsNotExist (e : error) : bool :=
  match e with
  | ErrNFS n => (n =? NFS3ErrNoEnt) || (n =? NFS3ErrStale)
  | _ => false
  end.

Definition IsNotDirError (e : error) : bool :=
  match e with
  | ErrNFS n => n =? NFS3ErrNotDir
  | _ => false
  end.

Definition xdr_Read {A : Type} (decode : XdrValue -> option A) (res : Reader)
  : error + (A * Reader) :=
  match res with
  | x :: res' =>
      match decode x with
      | Some a => inr (a, res')
      | None => inl ErrDecode
      end
  | [] => inl ErrDecode
  end.

Definition as_uint32 (x : XdrValue) : option Z :=
  match x with XUint32 n => Some n | _ => None end.

Definition as_bool (x : XdrValue) : option bool :=
  match x with XBool b => Some b | _ => None end.

Definition as_FSInfo (x : XdrValue) : option FSInfo :=
  match x with XFSInfo i => Some i | _ => None end.

Definition as_LookupOk (x : XdrValue) : option LookupOk.t :=
  match x with
  | XLookupOk fh attr dirattr =>
      Some {| LookupOk.FH := Some fh;
              LookupOk.Attr := PostOpAttr.decode attr;
              LookupOk.DirAttr := PostOpAttr.decode dirattr |}
  | _ => None
  end.

Definition as_AccessOk (x : XdrValue) : option AccessOk.t :=
  match x with
  | XAccessOk attr access =>
      Some {| AccessOk.Attr := PostOpAttr.decode attr;
              AccessOk.Access := access |}
  | _ => None
  end.

Definition as_DirListOK (x : XdrValue) : option DirListOK.t :=
  match x with
  | XDirListOK dirattrs cookieverf =>
      Some {| DirListOK.DirAttrs := PostOpAttr.decode dirattrs;
              DirListOK.CookieVerf := cookieverf |}
  | _ => None
  end.

Definition zeroEntryPlus : EntryPlus.t :=
  {| EntryPlus.FileId := 0; EntryPlus.FileName := EmptyString;
     EntryPlus.Cookie := 0;
     EntryPlus.Attr := PostOpAttr.decode None;
     EntryPlus.Handle := PostOpFH3.decode None |}.

Definition decode_EntryPlus
  (e : Z * string * Z * option Fattr * option (list byte)) : EntryPlus.t :=
  let '(fileid, name, cookie, attr, handle) := e in
  {| EntryPlus.FileId := fileid; EntryPlus.FileName := name;
     EntryPlus.Cookie := cookie;
     EntryPlus.Attr := PostOpAttr.decode attr;
     EntryPlus.Handle := PostOpFH3.decode handle |}.

Definition as_DirListPlus3 (x : XdrValue) : option DirListPlus3.t :=
  match x with
  | XDirListPlus3 (Some e) =>
      Some {| DirListPlus3.IsSet := true;
              DirListPlus3.Entry := decode_EntryPlus e |}
  | XDirListPlus3 None =>
      Some {| DirListPlus3.IsSet := false;
              DirListPlus3.Entry := zeroEntryPlus |}
  | _ => None
  end.

Definition as_Create3Res (x : XdrValue) : option Create3Res.t :=
  match x with
  | XCreate3Res fh attr wcc =>
      Some {| Create3Res.FH := PostOpFH3.decode fh;
              Create3Res.Attr := PostOpAttr.decode attr;
              Create3Res.DirWcc := wcc |}
  | _ => None
  end.

Definition as_Fattr (x : XdrValue) : option Fattr :=
  match x with XFattr a => Some a | _ => None end.

Definition as_WccData (x : XdrValue) : option WccData :=
  match x with XWccData w => Some w | _ => None end.

Definition as_Rename3Res (x : XdrValue) : option Rename3Res.t :=
  match x with
  | XRename3Res f t =>
      Some {| Rename3Res.FromDirWcc := f; Rename3Res.ToDirWcc := t |}
  | _ => None
  end.

Definition as_Readlink3Ok (x : XdrValue) : option Readlink3Ok.t :=
  match x with
  | XReadlink3Ok attr target =>
      Some {| Readlink3Ok.SymlinkAttr := PostOpAttr.decode attr;
              Readlink3Ok.Target := target |}
  | _ => None
  end.

(* ================================================================== *)
(** ** The monad of the client *)

(** The outcome of a Go call: its results, its non-nil [error], or no
    outcome within the recursion budget of the model. *)
Inductive Res (A : Type) :=
| Ok (a : A)
| Fail (e : error)
| OutOfFuel.

Arguments Ok {A} a.
Arguments Fail {A} e.
Arguments OutOfFuel {A}.

Module Target.
Record t := {
  auth : Auth;
  fh : Bytes;
  dirPath : string;
  fsinfo : option FSInfo
}.
End Target.

Definition is_dot (s : string) : bool := String.eqb s ".".
Definition is_dotdot (s : string) : bool := String.eqb s "..".
Definition is_empty (s : string) : bool := String.eqb s "".

(** The channel of a [Target] ([*rpc.Client]) in state [chan], and the
    calls made on it so far with the replies they got. *)
Record State (W : Type) := { chan : W; log : list (Request * Reply) }.

Arguments chan {W} s.
Arguments log {W} s.

Definition M (W A : Type) : Type := State W -> Res A * State W.

Definition ret {W A : Type} (a : A) : M W A := fun s => (Ok a, s).

Definition fail {W A : Type} (e : error) : M W A := fun s => (Fail e, s).

Definition out_of_fuel {W A : Type} : M W A := fun s => (OutOfFuel, s).

Definition bind {W A B : Type} (m : M W A) (k : A -> M W B) : M W B :=
  fun s =>
    match m s with
    | (Ok a, s') => k a s'
    | (Fail e, s') => (Fail e, s')
    | (OutOfFuel, s') => (OutOfFuel, s')
    end.

(** Running a call and looking at its [err] result instead of returning
    on it. *)
Definition try {W A : Type} (m : M W A) : M W (error + A) :=
  fun s =>
    match m s with
    | (Ok a, s') => (Ok (inr a), s')
    | (Fail e, s') => (Ok (inl e), s')
    | (OutOfFuel, s') => (OutOfFuel, s')
    end.

(** The result of [xdr.Read] on the reply of the call in progress. *)
Definition xdr {W A : Type} (r : error + A) : M W A :=
  match r with
  | inl e => fail e
  | inr a => ret a
  end.

Declare Scope go_scope.
Delimit Scope go_scope with go.
Notation "x <- m ;; k" := (bind m (fun x => k))
  (at level 61, m at next level, right associativity) : go_scope.
Notation "' p <- m ;; k" := (bind m (fun x => match x with p => k end))
  (at level 61, p pattern, m at next level, right associativity) : go_scope.
Notation "m ;; k" := (bind m (fun _ => k))
  (at level 61, right associativity) : go_scope.
Local Open Scope go_scope.

(* ================================================================== *)
(** ** The functions of target.go *)

Section Client.

Variable W : Type.

(** [rpc.Client.Call]: the request goes to the server, the channel moves to
    its next state, and a reply reader or a transport error comes back. *)
Variable rpcCall : Request -> W -> Reply * W.

Definition Call (c : Request) : M W Reader :=
  fun s =>
    let '(rep, w) := rpcCall c (chan s) in
    let s' := {| chan := w; log := log s ++ [(c, rep)] |} in
    match rep with
    | inl err => (Fail err, s')
    | inr res => (Ok res, s')
    end.

(** wraps the Call function to check status and decode errors *)
Definition call (c : Request) : M W Reader :=
  res <- Call c ;;
  ' (status, res) <- xdr (xdr_Read as_uint32 res) ;;
  match NFS3Error status with
  | Some err => fail err
  | None => ret res
  end.

(** The method [Target.FSInfo]; [FSInfo] names the record it returns. *)
Definition FSInfo' (v : Target.t) : M W FSInfo :=
  res <- call {| header := {| Rpcvers := 2;
                              Prog := Nfs3Prog;
                              Vers := Nfs3Vers;
                              Proc := NFSProc3FSInfo;
                              Cred := Target.auth v;
                              Verf := AuthNull |};
                 args := FSInfoArgs (Target.fh v) |} ;;
  ' (fsinfo, _) <- xdr (xdr_Read as_FSInfo res) ;;
  ret fsinfo.

Definition NewTargetWithClient (auth : Auth) (fh : Bytes) (dirpath : string)
  : M W Target.t :=
  let vol := {| Target.auth := auth; Target.fh := fh;
                Target.dirPath := dirpath; Target.fsinfo := None |} in
  fsinfo <- FSInfo' vol ;;
  ret {| Target.auth := Target.auth vol; Target.fh := Target.fh vol;
         Target.dirPath := Target.dirPath vol;
         Target.fsinfo := Some fsinfo |}.

(** lookup returns the same as above, but by fh and name *)
Definition lookup (v : Target.t) (fh : Bytes) (name : string)
  : M W (Fattr * Bytes * Fattr) :=
  res <- call {| header := {| Rpcvers := 2;
                              Prog := Nfs3Prog;
                              Vers := Nfs3Vers;
                              Proc := NFSProc3Lookup;
                              Cred := Target.auth v;
                              Verf := AuthNull |};
                 args := Lookup3Args {| Diropargs3.FH := fh;
                                        Diropargs3.Filename := name |} |} ;;
  ' (lookupres, _) <- xdr (xdr_Read as_LookupOk res) ;;
  ret (PostOpAttr.Attr (LookupOk.Attr lookupres),
       LookupOk.FH lookupres,
       PostOpAttr.Attr (LookupOk.DirAttr lookupres)).

Definition readlinkFh (v : Target.t) (fh : Bytes) : M W (Fattr * string) :=
  res <- call {| header := {| Rpcvers := 2;
                              Prog := Nfs3Prog;
                              Vers := Nfs3Vers;
                              Proc := NFSProc3Readlink;
                              Cred := Target.auth v;
                              Verf := AuthNull |};
                 args := Readlink3Arg fh |} ;;
  ' (readlinkRes, _) <- xdr (xdr_Read as_Readlink3Ok res) ;;
  ret (PostOpAttr.Attr (Readlink3Ok.SymlinkAttr readlinkRes),
       Readlink3Ok.Target readlinkRes).

(** The results of [lookupInner] without the error: [fattr] (nil is
    [None]), [fh], [dirent], [prevFh]. *)
Definition Resolved : Type := (option Fattr * Bytes * string * Bytes)%type.

(** The [for] loop of [lookupInner] over the components still to visit,
    with the loop variables [fattr], [fh], [dirent], [prevFh].  The test
    [i == len(dirents)] after [i += 1] holds when no component is left.
    [inner] is the recursive call [v.lookupInner(v.fh, target, true, fh)];
    its error goes to an [err] that [_, target, err := v.readlinkFh(fh)]
    declared inside the [if] block and that nothing reads afterwards, so
    only its [fh] result (nil with an error) is kept.  [61440] and [40960]
    are [0o170000] and [0o120000]. *)
Fixpoint lookupInner_loop (inner : string -> Bytes -> M W Resolved)
  (v : Target.t) (lookupLast : bool) (lookupOrigin : Bytes)
  (dirents : list string)
  (fattr : option Fattr) (fh : Bytes) (dirent : string) (prevFh : Bytes)
  : M W Resolved :=
  match dirents with
  | [] => ret (fattr, fh, dirent, prevFh)
  | d :: rest =>
      let dirent := d in
      let prevFh := fh in
      if (match rest with [] => true | _ => false end) && negb lookupLast
      then ret (None, None, dirent, prevFh)
      else if is_dot dirent || is_empty dirent
      then lookupInner_loop inner v lookupLast lookupOrigin rest
             fattr fh dirent prevFh
      else
        ' (fattr', fh, _) <- lookup v prevFh dirent ;;
        if Z.land (FileMode fattr') 61440 =? 40960
        then
          if negb (is_nil lookupOrigin) && sameHandle fh lookupOrigin
          then fail (Errorf "recursed symlink")
          else
            ' (_, target) <- readlinkFh v fh ;;
            r <- try (inner target fh) ;;
            let fh := match r with
                      | inr (_, fh, _, _) => fh
                      | inl _ => None
                      end in
            lookupInner_loop inner v lookupLast lookupOrigin rest
              (Some fattr') fh dirent prevFh
        else
          lookupInner_loop inner v lookupLast lookupOrigin rest
            (Some fattr') fh dirent prevFh
  end.

(** [lookupInner]; [fuel] bounds the depth of the recursion through
    symlinks. *)
Fixpoint lookupInner (fuel : nat) (v : Target.t) (fh : Bytes) (p : string)
  (lookupLast : bool) (lookupOrigin : Bytes) : M W Resolved :=
  match fuel with
  | O => out_of_fuel
  | S fuel' =>
      lookupInner_loop
        (fun target origin =>
           lookupInner fuel' v (Target.fh v) target true origin)
        v lookupLast lookupOrigin (strings_Split p "/")
        None fh EmptyString None
  end.

(** Lookup returns attributes and the file handle to a given dirent *)
Definition Lookup (fuel : nat) (v : Target.t) (p : string)
  : M W (option Fattr * Bytes) :=
  ' (fattr, fh, _, _) <- lookupInner fuel v (Target.fh v) p true None ;;
  ret (fattr, fh).

(** access returns the same as above, but by fh and name *)
Definition access (v : Target.t) (fh : Bytes) (path : string) (access : Z)
  : M W (Fattr * Z) :=
  res <- call {| header := {| Rpcvers := 2;
                              Prog := Nfs3Prog;
                              Vers := Nfs3Vers;
                              Proc := NFSProc3Access;
                              Cred := Target.auth v;
                              Verf := AuthNull |};
                 args := Access3Args fh access |} ;;
  ' (accessres, _) <- xdr (xdr_Read as_AccessOk res) ;;
  ret (PostOpAttr.Attr (AccessOk.Attr accessres), AccessOk.Access accessres).

(** Access file *)
Definition Access (fuel : nat) (v : Target.t) (path : string) (mode : Z)
  : M W Z :=
  ' (_, fh) <- Lookup fuel v path ;;
  ' (_, mode) <- access v fh path mode ;;
  ret mode.

(** The inner [for] loop of [ReadDirPlusByFh]: one [DirListPlus3] is read
    per round until one is not set.  It recurses on the reader, which a
    successful read shortens by the value read (lemma [dirlist_unfold]). *)
Fixpoint dirlist (res : Reader) (cookie : Z) (entries : list EntryPlus.t)
  : error + (Z * list EntryPlus.t * Reader) :=
  match res with
  | [] => inl ErrDecode
  | x :: res' =>
      match as_DirListPlus3 x with
      | None => inl ErrDecode
      | Some item =>
          if negb (DirListPlus3.IsSet item) then inr (cookie, entries, res')
          else dirlist res'
                 (EntryPlus.Cookie (DirListPlus3.Entry item))
                 (entries ++ [DirListPlus3.Entry item])
      end
  end.

(** The [for !eof] loop of [ReadDirPlusByFh] with its variables [cookie],
    [cookieVerf] and [entries]; [eof] is false on entry.  [fuel] bounds
    the number of pages. *)
Fixpoint ReadDirPlusByFh_loop (fuel : nat) (v : Target.t) (fh : Bytes)
  (cookie cookieVerf : Z) (entries : list EntryPlus.t)
  : M W (list EntryPlus.t) :=
  match fuel with
  | O => out_of_fuel
  | S fuel' =>
      res <- call {| header := {| Rpcvers := 2;
                                  Prog := Nfs3Prog;
                                  Vers := Nfs3Vers;
                                  Proc := NFSProc3ReadDirPlus;
                                  Cred := Target.auth v;
                                  Verf := AuthNull |};
                     args := ReadDirPlus3Args fh cookie cookieVerf
                               512 4096 |} ;;
      ' (dirlistOK, res) <- xdr (xdr_Read as_DirListOK res) ;;
      ' (cookie, entries, res) <- xdr (dirlist res cookie entries) ;;
      ' (eof, _) <- xdr (xdr_Read as_bool res) ;;
      let cookieVerf := DirListOK.CookieVerf dirlistOK in
      if eof then ret entries
      else ReadDirPlusByFh_loop fuel' v fh cookie cookieVerf entries
  end.

Definition ReadDirPlusByFh (fuel : nat) (v : Target.t) (fh : Bytes)
  : M W (list EntryPlus.t) :=
  ReadDirPlusByFh_loop fuel v fh 0 0 [].

(** ReadDirPlus get dir sub item *)
Definition ReadDirPlus (fuel : nat) (v : Target.t) (dir : string)
  : M W (list EntryPlus.t) :=
  ' (_, fh) <- Lookup fuel v dir ;;
  ReadDirPlusByFh fuel v fh.

(** Creates a directory of the given name and returns its handle *)
Definition MkdirByParentFh (v : Target.t) (fh : Bytes) (name : string)
  (perm : Z) : M W Bytes :=
  let args :=
    {| header := {| Rpcvers := 2;
                    Prog := Nfs3Prog;
                    Vers := Nfs3Vers;
                    Proc := NFSProc3Mkdir;
                    Cred := Target.auth v;
                    Verf := AuthNull |};
       args := MkdirArgs
                 {| Diropargs3.FH := fh; Diropargs3.Filename := name |}
                 {| Sattr3.Mode := {| SetMode.SetIt := true;
                                      SetMode.Mode := Perm perm |};
                    Sattr3.UID := SetID.zero;
                    Sattr3.GID := SetID.zero;
                    Sattr3.Size := SetSize.zero;
                    Sattr3.Atime := SetTime.zero;
                    Sattr3.Mtime := SetTime.zero |} |} in
  res <- call args ;;
  ' (mkdirres, _) <- xdr (xdr_Read as_Create3Res res) ;;
  ret (PostOpFH3.FH (Create3Res.FH mkdirres)).

Definition Mkdir (fuel : nat) (v : Target.t) (path : string) (perm : Z)
  : M W Bytes :=
  let '(dir, newDir) := path_Split path in
  ' (_, fh) <- Lookup fuel v dir ;;
  MkdirByParentFh v fh newDir perm.

(** Create a file with name the given mode *)
Definition CreateTruncate (fuel : nat) (v : Target.t) (path : string)
  (perm : Z) (size : Z) : M W Bytes :=
  ' (_, _, newFile, fh) <-
    lookupInner fuel v (Target.fh v) path false None ;;
  res <- call {| header := {| Rpcvers := 2;
                              Prog := Nfs3Prog;
                              Vers := Nfs3Vers;
                              Proc := NFSProc3Create;
                              Cred := Target.auth v;
                              Verf := AuthNull |};
                 args := Create3Args
                   {| Diropargs3.FH := fh; Diropargs3.Filename := newFile |}
                   {| How.Mode := 0;
                      How.Attr :=
                        {| Sattr3.Mode := {| SetMode.SetIt := true;
                                             SetMode.Mode := Perm perm |};
                           Sattr3.UID := SetID.zero;
                           Sattr3.GID := SetID.zero;
                           Sattr3.Size := {| SetSize.SetIt := true;
                                             SetSize.Size := size |};
                           Sattr3.Atime := SetTime.zero;
                           Sattr3.Mtime := SetTime.zero |} |} |} ;;
  ' (status, _) <- xdr (xdr_Read as_Create3Res res) ;;
  ret (PostOpFH3.FH (Create3Res.FH status)).

(** Create a file with name the given mode *)
Definition CreateByFh (v : Target.t) (fh : Bytes) (name : string) (perm : Z)
  : M W Bytes :=
  res <- call {| header := {| Rpcvers := 2;
                              Prog := Nfs3Prog;
                              Vers := Nfs3Vers;
                              Proc := NFSProc3Create;
                              Cred := Target.auth v;
                              Verf := AuthNull |};
                 args := Create3Args
                   {| Diropargs3.FH := fh; Diropargs3.Filename := name |}
                   {| How.Mode := 0;
                      How.Attr :=
                        {| Sattr3.Mode := {| SetMode.SetIt := true;
                                             SetMode.Mode := Perm perm |};
                           Sattr3.UID := SetID.zero;
                           Sattr3.GID := SetID.zero;
                           Sattr3.Size := SetSize.zero;
                           Sattr3.Atime := SetTime.zero;
                           Sattr3.Mtime := SetTime.zero |} |} |} ;;
  ' (status, _) <- xdr (xdr_Read as_Create3Res res) ;;
  ret (PostOpFH3.FH (Create3Res.FH status)).

(** Create a file with name the given mode *)
Definition Create (fuel : nat) (v : Target.t) (path : string) (perm : Z)
  : M W Bytes :=
  ' (_, _, newFile, fh) <-
    lookupInner fuel v (Target.fh v) path false None ;;
  CreateByFh v fh newFile perm.

Definition GetAttrFh (v : Target.t) (fh : Bytes) : M W Fattr :=
  res <- call {| header := {| Rpcvers := 2;
                              Prog := Nfs3Prog;
                              Vers := Nfs3Vers;
                              Proc := NFSProc3GetAttr;
                              Cred := Target.auth v;
                              Verf := AuthNull |};
                 args := GetAttrArgs fh |} ;;
  ' (getAttrRes, _) <- xdr (xdr_Read as_Fattr res) ;;
  ret getAttrRes.

(** [GetAttr] returns [fattr, fh, err] as they are after [GetAttrFh], the
    handle also next to an error; a failed [Lookup] returns on the spot. *)
Definition GetAttr (fuel : nat) (v : Target.t) (path : string)
  : M W (option Fattr * Bytes * option error) :=
  ' (_, fh) <- Lookup fuel v path ;;
  r <- try (GetAttrFh v fh) ;;
  match r with
  | inr fattr => ret (Some fattr, fh, None)
  | inl err => ret (None, fh, Some err)
  end.

(** remove the named file from the parent (fh) *)
Definition remove (v : Target.t) (fh : Bytes) (deleteFile : string)
  : M W unit :=
  call {| header := {| Rpcvers := 2;
                       Prog := Nfs3Prog;
                       Vers := Nfs3Vers;
                       Proc := NFSProc3Remove;
                       Cred := Target.auth v;
                       Verf := AuthNull |};
          args := RemoveArgs {| Diropargs3.FH := fh;
                                Diropargs3.Filename := deleteFile |} |} ;;
  ret tt.

(** Remove a file *)
Definition Remove (fuel : nat) (v : Target.t) (path : string) : M W unit :=
  let '(parentDir, deleteFile) := path_Split path in
  ' (_, fh) <- Lookup fuel v parentDir ;;
  remove v fh deleteFile.

(** delete the named directory from the parent directory (fh) *)
Definition rmDir (v : Target.t) (fh : Bytes) (name : string) : M W unit :=
  call {| header := {| Rpcvers := 2;
                       Prog := Nfs3Prog;
                       Vers := Nfs3Vers;
                       Proc := NFSProc3RmDir;
                       Cred := Target.auth v;
                       Verf := AuthNull |};
          args := RmDir3Args {| Diropargs3.FH := fh;
                                Diropargs3.Filename := name |} |} ;;
  ret tt.

(** RmDir removes a non-empty directory *)
Definition RmDir (fuel : nat) (v : Target.t) (path : string) : M W unit :=
  let '(dir, deletedir) := path_Split path in
  ' (_, fh) <- Lookup fuel v dir ;;
  rmDir v fh deletedir.

(** The [for _, entry := range entries] loop of [removeAll]; [recurse] is
    the recursive call [v.removeAll]. *)
Fixpoint removeAll_entries (recurse : Bytes -> M W unit) (v : Target.t)
  (deleteDirfh : Bytes) (entries : list EntryPlus.t) : M W unit :=
  match entries with
  | [] => ret tt
  | entry :: rest =>
      if is_dot (EntryPlus.FileName entry)
         || is_dotdot (EntryPlus.FileName entry)
      then removeAll_entries recurse v deleteDirfh rest
      else
        (if Type_ (PostOpAttr.Attr (EntryPlus.Attr entry)) =? NF3Dir
         then
           (if PostOpFH3.IsSet (EntryPlus.Handle entry)
            then recurse (PostOpFH3.FH (EntryPlus.Handle entry))
            else ret tt) ;;
           rmDir v deleteDirfh (EntryPlus.FileName entry)
         else remove v deleteDirfh (EntryPlus.FileName entry)) ;;
        removeAll_entries recurse v deleteDirfh rest
  end.

(** removeAll removes the deleteDir recursively; [fuel] bounds the depth
    of the recursion (and the pages of each listing). *)
Fixpoint removeAll (fuel : nat) (v : Target.t) (deleteDirfh : Bytes)
  : M W unit :=
  match fuel with
  | O => out_of_fuel
  | S fuel' =>
      entries <- ReadDirPlusByFh fuel v deleteDirfh ;;
      removeAll_entries (removeAll fuel' v) v deleteDirfh entries
  end.

Definition RemoveAll (fuel : nat) (v : Target.t) (path : string)
  : M W unit :=
  ' (_, _, deleteDir, parentDirfh) <-
    lookupInner fuel v (Target.fh v) path false None ;;
  r <- try (rmDir v parentDirfh deleteDir) ;;
  match r with
  | inr _ => ret tt
  | inl err =>
      if os_IsNotExist err then ret tt
      else if IsNotDirError err then fail err
      else
        ' (_, deleteDirfh, _, _) <-
          lookupInner fuel v parentDirfh deleteDir true None ;;
        removeAll fuel v deleteDirfh ;;
        rmDir v parentDirfh deleteDir
  end.

Definition GetAttrByFh (v : Target.t) (fh : Bytes) : M W Fattr :=
  res <- call {| header := {| Rpcvers := 2;
                              Prog := Nfs3Prog;
                              Vers := Nfs3Vers;
                              Proc := NFSProc3GetAttr;
                              Cred := Target.auth v;
                              Verf := AuthNull |};
                 args := GetAttr3Args fh |} ;;
  ' (fattr, _) <- xdr (xdr_Read as_Fattr res) ;;
  ret fattr.

Definition SetAttrByFh (v : Target.t) (fh : Bytes) (fattr : Sattr3.t)
  : M W unit :=
  res <- call {| header := {| Rpcvers := 2;
                              Prog := Nfs3Prog;
                              Vers := Nfs3Vers;
                              Proc := NFSProc3SetAttr;
                              Cred := Target.auth v;
                              Verf := AuthNull |};
                 args := SetAttr3Args fh fattr
                           {| Guard.Check := false;
                              Guard.Ctime := zeroTime |} |} ;;
  xdr (xdr_Read as_WccData res) ;;
  ret tt.

Definition RenameByFh (v : Target.t) (fromFh : Bytes) (fromName : string)
  (toFh : Bytes) (toName : string) : M W unit :=
  res <- call {| header := {| Rpcvers := 2;
                              Prog := Nfs3Prog;
                              Vers := Nfs3Vers;
                              Proc := NFSProc3Rename;
                              Cred := Target.auth v;
                              Verf := AuthNull |};
                 args := Rename3Args
                           {| Diropargs3.FH := fromFh;
                              Diropargs3.Filename := fromName |}
                           {| Diropargs3.FH := toFh;
                              Diropargs3.Filename := toName |} |} ;;
  xdr (xdr_Read as_Rename3Res res) ;;
  ret tt.

Definition Rename (fuel : nat) (v : Target.t) (fromPath toPath : string)
  : M W unit :=
  ' (_, _, fromName, fromFh) <-
    lookupInner fuel v (Target.fh v) fromPath true None ;;
  if is_nil fromFh
  then fail (Errorf "fromName cannot be a root directory")
  else
    ' (_, _, toName, toFh) <-
      lookupInner fuel v (Target.fh v) toPath false None ;;
    if is_nil toFh
    then fail (Errorf "toName cannot be a root directory")
    else RenameByFh v fromFh fromName toFh toName.

(** Readlink reads a symbolic link and returns the target *)
Definition Readlink (fuel : nat) (v : Target.t) (path : string)
  : M W string :=
  ' (_, fh) <- Lookup fuel v path ;;
  ' (_, target) <- readlinkFh v fh ;;
  ret target.

(** The exported methods of [Target], with their arguments. *)
Inductive Operation :=
| OpFSInfo
| OpLookup (p : string)
| OpAccess (path : string) (mode : Z)
| OpReadDirPlus (dir : string)
| OpReadDirPlusByFh (fh : Bytes)
| OpMkdir (path : string) (perm : Z)
| OpMkdirByParentFh (fh : Bytes) (name : string) (perm : Z)
| OpCreateTruncate (path : string) (perm size : Z)
| OpCreate (path : string) (perm : Z)
| OpCreateByFh (fh : Bytes) (name : string) (perm : Z)
| OpGetAttr (path : string)
| OpGetAttrFh (fh : Bytes)
| OpGetAttrByFh (fh : Bytes)
| OpSetAttrByFh (fh : Bytes) (fattr : Sattr3.t)
| OpRemove (path : string)
| OpRmDir (path : string)
| OpRemoveAll (path : string)
| OpRename (fromPath toPath : string)
| OpRenameByFh (fromFh : Bytes) (fromName : string)
    (toFh : Bytes) (toName : string)
| OpReadlink (path : string).

(** Running an exported method for its effect on the channel. *)
Definition perform (fuel : nat) (v : Target.t) (op : Operation) : M W unit :=
  match op with
  | OpFSInfo => FSInfo' v ;; ret tt
  | OpLookup p => Lookup fuel v p ;; ret tt
  | OpAccess path mode => Access fuel v path mode ;; ret tt
  | OpReadDirPlus dir => ReadDirPlus fuel v dir ;; ret tt
  | OpReadDirPlusByFh fh => ReadDirPlusByFh fuel v fh ;; ret tt
  | OpMkdir path perm => Mkdir fuel v path perm ;; ret tt
  | OpMkdirByParentFh fh name perm => MkdirByParentFh v fh name perm ;; ret tt
  | OpCreateTruncate path perm size =>
      CreateTruncate fuel v path perm size ;; ret tt
  | OpCreate path perm => Create fuel v path perm ;; ret tt
  | OpCreateByFh fh name perm => CreateByFh v fh name perm ;; ret tt
  | OpGetAttr path => GetAttr fuel v path ;; ret tt
  | OpGetAttrFh fh => GetAttrFh v fh ;; ret tt
  | OpGetAttrByFh fh => GetAttrByFh v fh ;; ret tt
  | OpSetAttrByFh fh fattr => SetAttrByFh v fh fattr
  | OpRemove path => Remove fuel v path
  | OpRmDir path => RmDir fuel v path
  | OpRemoveAll path => RemoveAll fuel v path
  | OpRename fromPath toPath => Rename fuel v fromPath toPath
  | OpRenameByFh fromFh fromName toFh toName =>
      RenameByFh v fromFh fromName toFh toName
  | OpReadlink path => Readlink fuel v path ;; ret tt
  end.

End Client.

Arguments Call {W} rpcCall c s.
Arguments call {W} rpcCall c s.
Arguments FSInfo' {W} rpcCall v s.
Arguments NewTargetWithClient {W} rpcCall auth fh dirpath s.
Arguments lookup {W} rpcCall v fh name s.
Arguments readlinkFh {W} rpcCall v fh s.
Arguments lookupInner_loop {W} rpcCall inner v lookupLast lookupOrigin
  dirents fattr fh dirent prevFh s.
Arguments lookupInner {W} rpcCall fuel v fh p lookupLast lookupOrigin s.
Arguments Lookup {W} rpcCall fuel v p s.
Arguments access {W} rpcCall v fh path access s.
Arguments Access {W} rpcCall fuel v path mode s.
Arguments ReadDirPlusByFh_loop {W} rpcCall fuel v fh cookie cookieVerf
  entries s.
Arguments ReadDirPlusByFh {W} rpcCall fuel v fh s.
Arguments ReadDirPlus {W} rpcCall fuel v dir s.
Arguments MkdirByParentFh {W} rpcCall v fh name perm s.
Arguments Mkdir {W} rpcCall fuel v path perm s.
Arguments CreateTruncate {W} rpcCall fuel v path perm size s.
Arguments CreateByFh {W} rpcCall v fh name perm s.
Arguments Create {W} rpcCall fuel v path perm s.
Arguments GetAttrFh {W} rpcCall v fh s.
Arguments GetAttr {W} rpcCall fuel v path s.
Arguments remove {W} rpcCall v fh deleteFile s.
Arguments Remove {W} rpcCall fuel v path s.
Arguments rmDir {W} rpcCall v fh name s.
Arguments RmDir {W} rpcCall fuel v path s.
Arguments removeAll_entries {W} rpcCall recurse v deleteDirfh entries s.
Arguments removeAll {W} rpcCall fuel v deleteDirfh s.
Arguments RemoveAll {W} rpcCall fuel v path s.
Arguments GetAttrByFh {W} rpcCall v fh s.
Arguments SetAttrByFh {W} rpcCall v fh fattr s.
Arguments RenameByFh {W} rpcCall v fromFh fromName toFh toName s.
Arguments Rename {W} rpcCall fuel v fromPath toPath s.
Arguments Readlink {W} rpcCall fuel v path s.
Arguments perform {W} rpcCall fuel v op s.

(* ================================================================== *)
(** ** A small server to run the client against *)

(** An export given by a table of objects.  The channel state is the list
    of directory entries removed so far.  Lookups, listings and removals
    follow RFC 1813; the procedures that create or rename are answered
    with NFS3ERR_NOTSUPP. *)
Module Exports.

Record Node := {
  n_fh : list byte;
  n_attr : Fattr;
  n_target : string;
  n_entries : list (string * list byte)
}.

Record t := {
  nodes : list Node;
  page : nat;
  plus_handles : bool
}.

Definition Removed : Type := list (list byte * string).

Definition bytes_eqb (a b : list byte) : bool :=
  if list_eq_dec Byte.byte_eq_dec a b then true else false.

Definition find_node (ex : t) (h : list byte) : option Node :=
  find (fun n => bytes_eqb (n_fh n) h) (nodes ex).

Definition is_removed (rm : Removed) (dir : list byte) (name : string) : bool :=
  existsb (fun e => bytes_eqb (fst e) dir && String.eqb (snd e) name) rm.

Definition live (rm : Removed) (dir : Node) : list (string * list byte) :=
  filter (fun e => negb (is_removed rm (n_fh dir) (fst e))) (n_entries dir).

Definition child (rm : Removed) (dir : Node) (name : string)
  : option (list byte) :=
  match find (fun e => String.eqb (fst e) name) (live rm dir) with
  | Some e => Some (snd e)
  | None => None
  end.

Definition proper (e : string * list byte) : bool :=
  negb (String.eqb (fst e) "." || String.eqb (fst e) "..").

Definition status (n : Z) : Reply := inr [XUint32 n].

Definition noWcc : WccData := {| Before := None; After := None |}.

(** The entries of a directory with their cookies: the position in the
    table, from one. *)
Fixpoint numbered {A : Type} (i : Z) (l : list A) : list (Z * A) :=
  match l with
  | [] => []
  | x :: l' => (i, x) :: numbered (i + 1) l'
  end.

Definition listing (ex : t) (rm : Removed) (dir : Node)
  : list (Z * (string * list byte)) :=
  filter (fun e => negb (is_removed rm (n_fh dir) (fst (snd e))))
    (numbered 1 (n_entries dir)).

Definition entry_value (ex : t) (e : Z * (string * list byte)) : XdrValue :=
  let '(cookie, (name, h)) := e in
  match find_node ex h with
  | Some n =>
      XDirListPlus3
        (Some (Fileid (n_attr n), name, cookie, Some (n_attr n),
               if plus_handles ex then Some h else None))
  | None => XDirListPlus3 (Some (0, name, cookie, None, None))
  end.

Definition with_dir (ex : t) (rm : Removed) (fh : Bytes)
  (k : Node -> Reply * Removed) : Reply * Removed :=
  match fh with
  | None => (status 10001, rm)
  | Some h =>
      match find_node ex h with
      | None => (status NFS3ErrStale, rm)
      | Some dir =>
          if Type_ (n_attr dir) =? NF3Dir then k dir
          else (status NFS3ErrNotDir, rm)
      end
  end.

Definition with_node (ex : t) (rm : Removed) (fh : Bytes)
  (k : Node -> Reply * Removed) : Reply * Removed :=
  match fh with
  | None => (status 10001, rm)
  | Some h =>
      match find_node ex h with
      | None => (status NFS3ErrStale, rm)
      | Some n => k n
      end
  end.

Definition serve (ex : t) (c : Request) (rm : Removed) : Reply * Removed :=
  match args c with
  | FSInfoArgs _ =>
      (inr [XUint32 0;
            XFSInfo {| RTMax := 65536; RTPref := 65536; RTMult := 4096;
                       WTMax := 65536; WTPref := 65536; WTMult := 4096;
                       DTPref := 4096; Size := 1099511627776;
                       TimeDelta := {| Seconds := 0; Nseconds := 1 |};
                       Properties := 27 |}], rm)
  | Lookup3Args what =>
      with_dir ex rm (Diropargs3.FH what) (fun dir =>
        match child rm dir (Diropargs3.Filename what) with
        | None => (status NFS3ErrNoEnt, rm)
        | Some h =>
            match find_node ex h with
            | None => (status NFS3ErrStale, rm)
            | Some n =>
                (inr [XUint32 0;
                      XLookupOk h (Some (n_attr n)) (Some (n_attr dir))], rm)
            end
        end)
  | Access3Args fh access =>
      with_node ex rm fh (fun n =>
        (inr [XUint32 0; XAccessOk (Some (n_attr n)) access], rm))
  | GetAttrArgs fh | GetAttr3Args fh =>
      with_node ex rm fh (fun n => (inr [XUint32 0; XFattr (n_attr n)], rm))
  | Readlink3Arg fh =>
      with_node ex rm fh (fun n =>
        if Type_ (n_attr n) =? NF3Lnk
        then (inr [XUint32 0; XReadlink3Ok (Some (n_attr n)) (n_target n)], rm)
        else (status 22, rm))
  | ReadDirPlus3Args fh cookie _ _ _ =>
      with_dir ex rm fh (fun dir =>
        let pending :=
          filter (fun e => cookie <? fst e) (listing ex rm dir) in
        (inr ([XUint32 0; XDirListOK (Some (n_attr dir)) 7]
              ++ map (entry_value ex) (firstn (page ex) pending)
              ++ [XDirListPlus3 None;
                  XBool (Nat.leb (List.length pending) (page ex))]), rm))
  | RmDir3Args object =>
      with_dir ex rm (Diropargs3.FH object) (fun dir =>
        match child rm dir (Diropargs3.Filename object) with
        | None => (status NFS3ErrNoEnt, rm)
        | Some h =>
            match find_node ex h with
            | None => (status NFS3ErrStale, rm)
            | Some n =>
                if negb (Type_ (n_attr n) =? NF3Dir)
                then (status NFS3ErrNotDir, rm)
                else if existsb proper (live rm n)
                then (status NFS3ErrNotEmpty, rm)
                else (inr [XUint32 0; XWccData noWcc],
                      (n_fh dir, Diropargs3.Filename object) :: rm)
            end
        end)
  | RemoveArgs object =>
      with_dir ex rm (Diropargs3.FH object) (fun dir =>
        match child rm dir (Diropargs3.Filename object) with
        | None => (status NFS3ErrNoEnt, rm)
        | Some h =>
            match find_node ex h with
            | None => (status NFS3ErrStale, rm)
            | Some n =>
                if Type_ (n_attr n) =? NF3Dir
                then (status NFS3ErrIsDir, rm)
                else (inr [XUint32 0; XWccData noWcc],
                      (n_fh dir, Diropargs3.Filename object) :: rm)
            end
        end)
  | MkdirArgs _ _ | Create3Args _ _ | SetAttr3Args _ _ _ | Rename3Args _ _ =>
      (status 10004, rm)
  end.

Definition attr (type mode fileid : Z) : Fattr :=
  {| Type_ := type; FileMode := mode; Nlink := 1; UID := 0; GID := 0;
     Filesize := 0; Used := 0; SpecData := (0, 0); FSID := 1;
     Fileid := fileid; Atime := zeroTime; Mtime := zeroTime;
     Ctime := zeroTime |}.

Definition dir (h : byte) (entries : list (string * list byte)) : Node :=
  {| n_fh := [h]; n_attr := attr NF3Dir 16877 (Z.of_N (Byte.to_N h));
     n_target := ""; n_entries := entries |}.

Definition file (h : byte) : Node :=
  {| n_fh := [h]; n_attr := attr NF3Reg 33188 (Z.of_N (Byte.to_N h));
     n_target := ""; n_entries := [] |}.

Definition symlink (h : byte) (target : string) : Node :=
  {| n_fh := [h]; n_attr := attr NF3Lnk 41471 (Z.of_N (Byte.to_N h));
     n_target := target; n_entries := [] |}.

End Exports.

(** A target mounted on the object with handle [x01], and a fresh channel. *)
Definition mounted : Target.t :=
  {| Target.auth := {| Flavor := 1; Body := Some [x00; x00; x00; x00] |};
     Target.fh := Some [x01];
     Target.dirPath := "/export";
     Target.fsinfo := None |}.

Definition fresh : State Exports.Removed := {| chan := []; log := [] |}.

(** [/a -> a]: a symlink to itself. *)
Definition selfLoop : Exports.t :=
  {| Exports.nodes := [Exports.dir x01 [("a"%string, [x02])];
                      Exports.symlink x02 "a"];
     Exports.page := 8; Exports.plus_handles := true |}.

(** [/a -> b], [/b -> a]. *)
Definition twoCycle : Exports.t :=
  {| Exports.nodes := [Exports.dir x01 [("a"%string, [x02]);
                                      ("b"%string, [x03])];
                      Exports.symlink x02 "b";
                      Exports.symlink x03 "a"];
     Exports.page := 8; Exports.plus_handles := true |}.

(** [/s -> f], [/f] a regular file, [/d] a directory holding [g]. *)
Definition linked : Exports.t :=
  {| Exports.nodes := [Exports.dir x01 [("s"%string, [x02]);
                                      ("f"%string, [x03]);
                                      ("d"%string, [x04])];
                      Exports.symlink x02 "f";
                      Exports.file x03;
                      Exports.dir x04 [("g"%string, [x05])];
                      Exports.file x05];
     Exports.page := 8; Exports.plus_handles := true |}.

(** [/r] holding [.], [..], a directory [a] with a file [g], and a file
    [f]; listings come two entries to the page. *)
Definition tree (handles : bool) : Exports.t :=
  {| Exports.nodes := [Exports.dir x01 [("r"%string, [x02])];
                      Exports.dir x02 [("."%string, [x02]);
                                      (".."%string, [x01]);
                                      ("a"%string, [x03]);
                                      ("f"%string, [x04])];
                      Exports.dir x03 [("g"%string, [x05])];
                      Exports.file x04;
                      Exports.file x05];
     Exports.page := 2; Exports.plus_handles := handles |}.

(** [/r] holding an empty directory [d] and a file [f]; the listing omits
    the handles. *)
Definition bare : Exports.t :=
  {| Exports.nodes := [Exports.dir x01 [("r"%string, [x02])];
                      Exports.dir x02 [("d"%string, [x03]);
                                      ("f"%string, [x04])];
                      Exports.dir x03 [];
                      Exports.file x04];
     Exports.page := 8; Exports.plus_handles := false |}.

(** A server that answers every call with success and a create result
    without the optional handle. *)
Definition terse (c : Request) (w : unit) : Reply * unit :=
  (inr [XUint32 0; XCreate3Res None None Exports.noWcc], w).

(* ================================================================== *)
(** ** What the properties are stated with *)

(** The procedure number that belongs to each argument structure. *)
Definition procedure (a : Args) : Z :=
  match a with
  | FSInfoArgs _ => NFSProc3FSInfo
  | Lookup3Args _ => NFSProc3Lookup
  | Access3Args _ _ => NFSProc3Access
  | ReadDirPlus3Args _ _ _ _ _ => NFSProc3ReadDirPlus
  | MkdirArgs _ _ => NFSProc3Mkdir
  | Create3Args _ _ => NFSProc3Create
  | GetAttrArgs _ => NFSProc3GetAttr
  | GetAttr3Args _ => NFSProc3GetAttr
  | RemoveArgs _ => NFSProc3Remove
  | RmDir3Args _ => NFSProc3RmDir
  | SetAttr3Args _ _ _ => NFSProc3SetAttr
  | Rename3Args _ _ => NFSProc3Rename
  | Readlink3Arg _ => NFSProc3Readlink
  end.

(** The standard header of section 4.1 for the arguments [a]. *)
Definition standard (v : Target.t) (a : Args) : Request :=
  {| header := {| Rpcvers := 2; Prog := Nfs3Prog; Vers := Nfs3Vers;
                  Proc := procedure a; Cred := Target.auth v;
                  Verf := AuthNull |};
     args := a |}.

Definition standard_header (v : Target.t) (c : Request) : Prop :=
  c = standard v (args c).

(** Requests of the path resolver: LOOKUP and READLINK. *)
Definition resolving (c : Request) : Prop :=
  match args c with
  | Lookup3Args _ | Readlink3Arg _ => True
  | _ => False
  end.

(** Requests that read: LOOKUP, READLINK and GETATTR. *)
Definition reading (c : Request) : Prop :=
  match args c with
  | Lookup3Args _ | Readlink3Arg _ | GetAttrArgs _ => True
  | _ => False
  end.

(** A reply with NFS status [n]. *)
Definition has_status (n : Z) (rep : Reply) : Prop :=
  exists res, rep = inr (XUint32 n :: res).

(** What [call] makes of a reply: the reader past a zero status, or the
    error of the transport, of reading the status, or of the status. *)
Definition reply_result (rep : Reply) : Res Reader :=
  match rep with
  | inl err => Fail err
  | inr res =>
      match xdr_Read as_uint32 res with
      | inl err => Fail err
      | inr (status, res') =>
          match NFS3Error status with
          | Some err => Fail err
          | None => Ok res'
          end
      end
  end.

Definition is_symlink (a : Fattr) : bool :=
  Z.land (FileMode a) 61440 =? 40960.

(** Agreement on type, fileid, mode, nlink and size. *)
Definition agree (a b : Fattr) : Prop :=
  Type_ a = Type_ b /\ Fileid a = Fileid b /\ FileMode a = FileMode b
  /\ Nlink a = Nlink b /\ Filesize a = Filesize b.

Section Servers.

Variable W : Type.
Variable rpcCall : Request -> W -> Reply * W.

(** The channel answers the calls of a trace in turn, going from state
    [w] to state [w']. *)
Inductive serves : W -> list (Request * Reply) -> W -> Prop :=
| serves_nil : forall w, serves w [] w
| serves_cons : forall w c tr w',
    serves (snd (rpcCall c w)) tr w' ->
    serves w ((c, fst (rpcCall c w)) :: tr) w'.

(** A server whose state the calls in [P] do not change. *)
Definition quiet (P : Request -> Prop) : Prop :=
  forall c w, P c -> snd (rpcCall c w) = w.

(** In state [w], the attributes a client decodes from a successful LOOKUP
    reply agree with those GETATTR gives for the handle of that reply. *)
Definition coherent (w : W) : Prop :=
  forall hdr hdr' what fh attr dirattr res a res',
    fst (rpcCall {| header := hdr; args := Lookup3Args what |} w)
      = inr (XUint32 0 :: XLookupOk fh attr dirattr :: res) ->
    fst (rpcCall {| header := hdr'; args := GetAttrArgs (Some fh) |} w)
      = inr (XUint32 0 :: XFattr a :: res') ->
    agree (PostOpAttr.Attr (PostOpAttr.decode attr)) a.

(** In state [w], CREATE and MKDIR succeed and the reply leaves out the
    optional handle. *)
Definition omits_handle (w : W) : Prop :=
  forall c,
    match args c with
    | MkdirArgs _ _ | Create3Args _ _ =>
        exists attr wcc res,
          fst (rpcCall c w)
          = inr (XUint32 0 :: XCreate3Res None attr wcc :: res)
    | _ => True
    end.

End Servers.

Arguments serves {W} rpcCall w tr w'.
Arguments quiet {W} rpcCall P.
Arguments coherent {W} rpcCall w.
Arguments omits_handle {W} rpcCall w.

(** *** The pager, after section 4.3 of the spec *)

(** Step 2: the entries of a page up to the [false] that ends the list. *)
Fixpoint entries_of (res : Reader) : option (list EntryPlus.t * Reader) :=
  match res with
  | XDirListPlus3 (Some e) :: res' =>
      match entries_of res' with
      | Some (es, rest) => Some (decode_EntryPlus e :: es, rest)
      | None => None
      end
  | XDirListPlus3 None :: res' => Some ([], res')
  | _ => None
  end.

(** Steps 1 to 3: a successful page is status zero, the preamble with its
    cookie verifier, the entries, and the [eof] boolean. *)
Definition page_of (rep : Reply) : option (Z * list EntryPlus.t * bool) :=
  match rep with
  | inr (XUint32 status :: XDirListOK _ verf :: res) =>
      if status =? 0 then
        match entries_of res with
        | Some (es, XBool eof :: _) => Some (verf, es, eof)
        | _ => None
        end
      else None
  | _ => None
  end.

(** The cookie of the last entry seen, [cookie] when the page is empty. *)
Definition last_cookie (cookie : Z) (es : list EntryPlus.t) : Z :=
  last (map EntryPlus.Cookie es) cookie.

(** Step 4: a listing is a run of pages; each request asks for
    [dircount = 512] and [maxcount = 4096]; after a page with
    [eof = false] the next request carries the last cookie seen and the
    verifier of that page; the entries are concatenated; the page with
    [eof = true] is the last. *)
Inductive paged (v : Target.t) (fh : Bytes)
  : Z -> Z -> list (Request * Reply) -> list EntryPlus.t -> Prop :=
| paged_eof : forall cookie verf rep verf' es,
    page_of rep = Some (verf', es, true) ->
    paged v fh cookie verf
      [(standard v (ReadDirPlus3Args fh cookie verf 512 4096), rep)] es
| paged_more : forall cookie verf rep verf' es tr es',
    page_of rep = Some (verf', es, false) ->
    paged v fh (last_cookie cookie es) verf' tr es' ->
    paged v fh cookie verf
      ((standard v (ReadDirPlus3Args fh cookie verf 512 4096), rep) :: tr)
      (es ++ es').

(** The calls of any run of the pager, finished or not: each request is
    as above, and a further request follows only a page with
    [eof = false]. *)
Inductive paging (v : Target.t) (fh : Bytes)
  : Z -> Z -> list (Request * Reply) -> Prop :=
| paging_none : forall cookie verf, paging v fh cookie verf []
| paging_last : forall cookie verf rep,
    paging v fh cookie verf
      [(standard v (ReadDirPlus3Args fh cookie verf 512 4096), rep)]
| paging_more : forall cookie verf rep verf' es tr,
    page_of rep = Some (verf', es, false) ->
    paging v fh (last_cookie cookie es) verf' tr ->
    paging v fh cookie verf
      ((standard v (ReadDirPlus3Args fh cookie verf 512 4096), rep) :: tr).

(** *** The recursive remover *)

Definition dirop (fh : Bytes) (name : string) : Diropargs3.t :=
  {| Diropargs3.FH := fh; Diropargs3.Filename := name |}.

Definition names_self_or_parent (e : EntryPlus.t) : Prop :=
  EntryPlus.FileName e = "."%string \/ EntryPlus.FileName e = ".."%string.

Definition is_directory (e : EntryPlus.t) : Prop :=
  Type_ (PostOpAttr.Attr (EntryPlus.Attr e)) = NF3Dir.

(** The calls of a successful [removeAll] on the directory [fh]: its
    listing, then for each entry but [.] and [..], in the order listed:
    for a directory, the removal of its contents when the listing gave its
    handle, and an RMDIR either way; a REMOVE for any other type. *)
Inductive removes (v : Target.t) : Bytes -> list (Request * Reply) -> Prop :=
| removes_listing : forall fh pages entries ops,
    paged v fh 0 0 pages entries ->
    removes_entries v fh entries ops ->
    removes v fh (pages ++ ops)
with removes_entries (v : Target.t)
  : Bytes -> list EntryPlus.t -> list (Request * Reply) -> Prop :=
| removes_done : forall fh, removes_entries v fh [] []
| removes_skip : forall fh e es ops,
    names_self_or_parent e ->
    removes_entries v fh es ops ->
    removes_entries v fh (e :: es) ops
| removes_subtree : forall fh e es sub rep ops,
    ~ names_self_or_parent e ->
    is_directory e ->
    PostOpFH3.IsSet (EntryPlus.Handle e) = true ->
    removes v (PostOpFH3.FH (EntryPlus.Handle e)) sub ->
    has_status 0 rep ->
    removes_entries v fh es ops ->
    removes_entries v fh (e :: es)
      (sub ++ (standard v (RmDir3Args (dirop fh (EntryPlus.FileName e))), rep)
           :: ops)
| removes_unlisted : forall fh e es rep ops,
    ~ names_self_or_parent e ->
    is_directory e ->
    PostOpFH3.IsSet (EntryPlus.Handle e) = false ->
    has_status 0 rep ->
    removes_entries v fh es ops ->
    removes_entries v fh (e :: es)
      ((standard v (RmDir3Args (dirop fh (EntryPlus.FileName e))), rep) :: ops)
| removes_file : forall fh e es rep ops,
    ~ names_self_or_parent e ->
    ~ is_directory e ->
    has_status 0 rep ->
    removes_entries v fh es ops ->
    removes_entries v fh (e :: es)
      ((standard v (RemoveArgs (dirop fh (EntryPlus.FileName e))), rep) :: ops).

(** The removal of one entry in the words of the specification: RMDIR
    for an entry of directory type with a present handle, REMOVE for the
    others. *)
Definition claimed_removal (fh : Bytes) (e : EntryPlus.t) : Args :=
  if (Type_ (PostOpAttr.Attr (EntryPlus.Attr e)) =? NF3Dir)
     && PostOpFH3.IsSet (EntryPlus.Handle e)
  then RmDir3Args (dirop fh (EntryPlus.FileName e))
  else RemoveArgs (dirop fh (EntryPlus.FileName e)).

(** The property every function of the client has: from a channel in
    state [w] it makes the calls of a trace the channel serves, all of
    them in [P], appends them to the log, and its outcome does not depend
    on the log. *)
Definition regular {W A : Type} (rpcCall : Request -> W -> Reply * W)
  (P : Request -> Prop) (m : M W A) : Prop :=
  forall w, exists r w' tr,
    serves rpcCall w tr w'
    /\ Forall (fun x => P (fst x)) tr
    /\ forall l, m {| chan := w; log := l |}
                 = (r, {| chan := w'; log := l ++ tr |}).

(* ================================================================== *)
(** ** What the further properties are stated with *)

(** A name with a ["/"] in it. *)
Fixpoint has_slash (s : string) : bool :=
  match s with
  | EmptyString => false
  | String c rest => Ascii.eqb c "/" || has_slash rest
  end.

(** Requests that leave the server as it is. *)
Definition inquiring (c : Request) : Prop :=
  match args c with
  | FSInfoArgs _ | Lookup3Args _ | Access3Args _ _
  | ReadDirPlus3Args _ _ _ _ _ | GetAttrArgs _ | GetAttr3Args _
  | Readlink3Arg _ => True
  | _ => False
  end.

(** Requests that change the server: SETATTR, CREATE, MKDIR, REMOVE, RMDIR
    and RENAME. *)
Definition mutating (c : Request) : Prop :=
  match args c with
  | MkdirArgs _ _ | Create3Args _ _ | RemoveArgs _ | RmDir3Args _
  | SetAttr3Args _ _ _ | Rename3Args _ _ => True
  | _ => False
  end.

(** The exported methods that only look. *)
Definition read_only (op : Operation) : bool :=
  match op with
  | OpFSInfo | OpLookup _ | OpAccess _ _ | OpReadDirPlus _
  | OpReadDirPlusByFh _ | OpGetAttr _ | OpGetAttrFh _ | OpGetAttrByFh _
  | OpReadlink _ => true
  | _ => false
  end.

(** The exported methods that resolve a path and then change one entry. *)
Definition path_mutation (op : Operation) : bool :=
  match op with
  | OpMkdir _ _ | OpCreateTruncate _ _ _ | OpCreate _ _ | OpRemove _
  | OpRmDir _ | OpRename _ _ => true
  | _ => false
  end.

(** The settable attributes with the permission bits [mode] set and
    nothing else, and with the size set besides. *)
Definition mode_only (mode : Z) : Sattr3.t :=
  {| Sattr3.Mode := {| SetMode.SetIt := true; SetMode.Mode := mode |};
     Sattr3.UID := SetID.zero;
     Sattr3.GID := SetID.zero;
     Sattr3.Size := SetSize.zero;
     Sattr3.Atime := SetTime.zero;
     Sattr3.Mtime := SetTime.zero |}.

Definition mode_and_size (mode size : Z) : Sattr3.t :=
  {| Sattr3.Mode := {| SetMode.SetIt := true; SetMode.Mode := mode |};
     Sattr3.UID := SetID.zero;
     Sattr3.GID := SetID.zero;
     Sattr3.Size := {| SetSize.SetIt := true; SetSize.Size := size |};
     Sattr3.Atime := SetTime.zero;
     Sattr3.Mtime := SetTime.zero |}.

(** The one request of each exported method that works by handle. *)
Definition envelope (op : Operation) : option Args :=
  match op with
  | OpMkdirByParentFh fh name perm =>
      Some (MkdirArgs (dirop fh name) (mode_only (Z.land perm 511)))
  | OpCreateByFh fh name perm =>
      Some (Create3Args (dirop fh name)
              {| How.Mode := 0; How.Attr := mode_only (Z.land perm 511) |})
  | OpGetAttrFh fh => Some (GetAttrArgs fh)
  | OpGetAttrByFh fh => Some (GetAttr3Args fh)
  | OpSetAttrByFh fh fattr =>
      Some (SetAttr3Args fh fattr
              {| Guard.Check := false; Guard.Ctime := zeroTime |})
  | OpRenameByFh fromFh fromName toFh toName =>
      Some (Rename3Args (dirop fromFh fromName) (dirop toFh toName))
  | _ => None
  end.

(** What the arguments of the requests that create or change attributes
    always look like: creation is UNCHECKED and sets the mode, within the
    permission bits, and at most the size; SETATTR has its guard off. *)
Definition shaped (c : Request) : Prop :=
  match args c with
  | MkdirArgs _ attrs =>
      exists mode, 0 <= mode <= 511 /\ attrs = mode_only mode
  | Create3Args _ hw =>
      How.Mode hw = 0
      /\ exists mode,
           0 <= mode <= 511
           /\ (How.Attr hw = mode_only mode
               \/ exists size, How.Attr hw = mode_and_size mode size)
  | SetAttr3Args _ _ guard => Guard.Check guard = false
  | _ => True
  end.

(** The requests of [removeAll]: listings, and removals of entries not
    named [.] or [..]. *)
Definition sweeping (c : Request) : Prop :=
  match args c with
  | ReadDirPlus3Args _ _ _ _ _ => True
  | RmDir3Args object | RemoveArgs object =>
      Diropargs3.Filename object <> "."%string
      /\ Diropargs3.Filename object <> ".."%string
  | _ => False
  end.

(** The requests of [Rename]: those of the resolver, and a RENAME whose
    two directory handles are not nil. *)
Definition resolving_or_rename (c : Request) : Prop :=
  match args c with
  | Lookup3Args _ | Readlink3Arg _ => True
  | Rename3Args from to =>
      is_nil (Diropargs3.FH from) = false
      /\ is_nil (Diropargs3.FH to) = false
  | _ => False
  end.

Section Walks.

Variable W : Type.
Variable rpcCall : Request -> W -> Reply * W.
Variable v : Target.t.
Variable w : W.

(** In state [w], LOOKUP of [name] in [dir] succeeds with handle [hb] and
    the attributes [attr] as the client decodes them. *)
Definition lookup_reply (dir : Bytes) (name : string) (hb : list byte)
  (attr : Fattr) : Prop :=
  exists a dirattr res,
    fst (rpcCall (standard v (Lookup3Args (dirop dir name))) w)
    = inr (XUint32 0 :: XLookupOk hb a dirattr :: res)
    /\ attr = PostOpAttr.Attr (PostOpAttr.decode a).

(** In state [w], READLINK of [link] succeeds with [target]. *)
Definition readlink_reply (link : Bytes) (target : string) : Prop :=
  exists a res,
    fst (rpcCall (standard v (Readlink3Arg link)) w)
    = inr (XUint32 0 :: XReadlink3Ok a target :: res).

(** A walk on the server in state [w]: from the handle [h] over the
    components [ds] to the handle [h'], through at most [n] nested
    symlinks.  Empty and [.] components stay in place; any other
    component, [..] too, is looked up on the server; a symlink other than
    [origin] is read and its target walked from the root of the mount,
    with the link as origin, and the walk goes on from where that ends. *)
Inductive walks : nat -> Bytes -> Bytes -> list string -> Bytes -> Prop :=
| walks_done : forall n origin h, walks n origin h [] h
| walks_skip : forall n origin h d ds h',
    is_dot d || is_empty d = true ->
    walks n origin h ds h' ->
    walks n origin h (d :: ds) h'
| walks_plain : forall n origin h d ds hb attr h',
    is_dot d || is_empty d = false ->
    lookup_reply h d hb attr ->
    is_symlink attr = false ->
    walks n origin (Some hb) ds h' ->
    walks n origin h (d :: ds) h'
| walks_link : forall n origin h d ds link attr target t h',
    is_dot d || is_empty d = false ->
    lookup_reply h d link attr ->
    is_symlink attr = true ->
    negb (is_nil origin) && sameHandle (Some link) origin = false ->
    readlink_reply (Some link) target ->
    walks n (Some link) (Target.fh v) (strings_Split target "/") t ->
    walks (S n) origin t ds h' ->
    walks (S n) origin h (d :: ds) h'.

End Walks.

Arguments lookup_reply {W} rpcCall v w dir name hb attr.
Arguments readlink_reply {W} rpcCall v w link target.
Arguments walks {W} rpcCall v w n origin h ds h'.

(* ================================================================== *)
(** * Properties *)

(** ** sameHandle *)

Lemma sameHandle_range_spec (a : list byte) (i : nat) (b : Bytes) :
  sameHandle_range a i b = true
  <-> forall j, (j < List.length a)%nat -> index b (i + j) = nth_error a j.
Proof.
  revert i. induction a as [|av a' IH]; intros i; simpl.
  - split; [intros _ j Hj; lia | reflexivity].
  - destruct (index b i) as [bv|] eqn:Ei.
    + destruct (Byte.eqb bv av) eqn:Eb; simpl.
      * apply Byte.byte_dec_bl in Eb. subst bv. rewrite IH. split.
        -- intros H [|j] Hj; simpl.
           ++ now rewrite Nat.add_0_r.
           ++ rewrite Nat.add_succ_r. apply H. lia.
        -- intros H j Hj. specialize (H (S j)). simpl in H.
           rewrite Nat.add_succ_r in H. apply H. lia.
      * split; [discriminate|]. intros H. specialize (H 0%nat).
        rewrite Nat.add_0_r, Ei in H. simpl in H.
        assert (Some bv = Some av) as E by (apply H; lia).
        injection E as ->.
        assert (Byte.eqb av av = true) by now apply Byte.byte_dec_lb.
        congruence.
    + split; [discriminate|]. intros H. specialize (H 0%nat).
      rewrite Nat.add_0_r, Ei in H. simpl in H.
      assert (None = Some av) by (apply H; lia). discriminate.
Qed.

(** The guard on the lengths keeps [b[i]] in range: the loop never meets
    the out-of-range case. *)
Lemma sameHandle_range_in_bounds (a b : Bytes) (i : nat) :
  len a = len b -> (i < len a)%nat -> index b i <> None.
Proof.
  intros Hlen Hi. unfold index. apply nth_error_Some.
  destruct b; simpl in *; lia.
Qed.

Lemma sameHandle_elems (a b : Bytes) :
  sameHandle a b = true <-> elems a = elems b.
Proof.
  unfold sameHandle.
  assert (La : len a = List.length (elems a)) by now destruct a.
  assert (Lb : len b = List.length (elems b)) by now destruct b.
  destruct (Nat.eqb (len a) (len b)) eqn:El; simpl.
  - apply Nat.eqb_eq in El. rewrite sameHandle_range_spec. split.
    + intros H. apply nth_error_ext. intros n.
      destruct (Nat.lt_ge_cases n (List.length (elems a))) as [Hn|Hn].
      * symmetry. apply (H n Hn).
      * rewrite (proj2 (nth_error_None _ _) Hn).
        symmetry. apply nth_error_None. lia.
    + intros E j _. unfold index. now rewrite E.
  - apply Nat.eqb_neq in El. split; [discriminate|].
    intros E. exfalso. apply El. now rewrite La, Lb, E.
Qed.

(** C8. [sameHandle] is reflexive, symmetric and transitive, and it holds
    exactly of two byte strings of the same length with the same byte at
    every index. *)
Theorem sameHandle_is_bytewise_equality :
  (forall a, sameHandle a a = true)
  /\ (forall a b, sameHandle a b = true -> sameHandle b a = true)
  /\ (forall a b c,
        sameHandle a b = true -> sameHandle b c = true ->
        sameHandle a c = true)
  /\ (forall a b,
        sameHandle a b = true
        <-> len a = len b /\ forall i, index a i = index b i).
Proof.
  repeat split.
  - intros a. now apply sameHandle_elems.
  - intros a b H. apply sameHandle_elems. symmetry. now apply sameHandle_elems.
  - intros a b c H1 H2. apply sameHandle_elems.
    transitivity (elems b); now apply sameHandle_elems.
  - apply sameHandle_elems in H.
    destruct a, b; simpl in *; subst; reflexivity.
  - apply sameHandle_elems in H. intros i. unfold index. now rewrite H.
  - intros [_ H]. apply sameHandle_elems. apply nth_error_ext. exact H.
Qed.

(** ** Splitting paths *)

Lemma strings_Split_nonempty (s : string) (sep : ascii) :
  strings_Split s sep <> [].
Proof.
  destruct s as [|c s]; simpl; [discriminate|].
  destruct (Ascii.eqb c sep); [discriminate|].
  destruct (strings_Split s sep); discriminate.
Qed.

(** A separator at the end adds an empty last component. *)
Lemma strings_Split_trailing (s : string) (sep : ascii) :
  strings_Split (s ++ String sep EmptyString) sep
  = strings_Split s sep ++ [EmptyString].
Proof.
  induction s as [|c s IH]; simpl.
  - now rewrite Ascii.eqb_refl.
  - destruct (Ascii.eqb c sep); simpl.
    + now rewrite IH.
    + rewrite IH. destruct (strings_Split s sep) eqn:E; simpl.
      * now destruct (strings_Split_nonempty s sep).
      * reflexivity.
Qed.

(* ================================================================== *)
(** ** Calls, logs and channel states *)

Section Regularity.

Variable W : Type.
Variable rpcCall : Request -> W -> Reply * W.

Lemma serves_app (w w1 w2 : W) (tr1 tr2 : list (Request * Reply)) :
  serves rpcCall w tr1 w1 -> serves rpcCall w1 tr2 w2 ->
  serves rpcCall w (tr1 ++ tr2) w2.
Proof.
  induction 1 as [w|w c tr w' H IH]; intros H2; simpl.
  - exact H2.
  - constructor. now apply IH.
Qed.

Lemma serves_quiet (P : Request -> Prop) (w w' : W)
  (tr : list (Request * Reply)) :
  quiet rpcCall P -> serves rpcCall w tr w' ->
  Forall (fun x => P (fst x)) tr -> w' = w.
Proof.
  intros Hq. induction 1 as [w|w c tr w' H IH]; intros HP; [reflexivity|].
  inversion HP; subst. rewrite IH by assumption. now apply Hq.
Qed.

Lemma regular_weaken {A : Type} (P Q : Request -> Prop) (m : M W A) :
  (forall c, P c -> Q c) -> regular rpcCall P m -> regular rpcCall Q m.
Proof.
  intros HPQ Hm w. destruct (Hm w) as (r & w' & tr & Hs & HP & Hrun).
  exists r, w', tr. repeat split; try assumption.
  eapply Forall_impl; [|exact HP]. intros x. apply HPQ.
Qed.

Lemma regular_pure {A : Type} (P : Request -> Prop) (r : Res A) :
  regular rpcCall P (fun s => (r, s)).
Proof.
  intros w. exists r, w, []. repeat split.
  - constructor.
  - constructor.
  - intros l. now rewrite app_nil_r.
Qed.

Lemma regular_ret {A : Type} (P : Request -> Prop) (a : A) :
  regular rpcCall P (ret a).
Proof. apply regular_pure. Qed.

Lemma regular_fail {A : Type} (P : Request -> Prop) (e : error) :
  regular rpcCall P (@fail W A e).
Proof. apply regular_pure. Qed.

Lemma regular_out_of_fuel {A : Type} (P : Request -> Prop) :
  regular rpcCall P (@out_of_fuel W A).
Proof. apply regular_pure. Qed.

Lemma regular_xdr {A : Type} (P : Request -> Prop) (r : error + A) :
  regular rpcCall P (@xdr W A r).
Proof. destruct r; apply regular_pure. Qed.

Lemma regular_bind {A B : Type} (P : Request -> Prop)
  (m : M W A) (k : A -> M W B) :
  regular rpcCall P m -> (forall a, regular rpcCall P (k a)) ->
  regular rpcCall P (bind m k).
Proof.
  intros Hm Hk w. destruct (Hm w) as (r & w1 & tr1 & Hs1 & HP1 & Hrun1).
  destruct r as [a|e|].
  - destruct (Hk a w1) as (r2 & w2 & tr2 & Hs2 & HP2 & Hrun2).
    exists r2, w2, (tr1 ++ tr2). repeat split.
    + eapply serves_app; eassumption.
    + apply Forall_app. now split.
    + intros l. unfold bind. now rewrite Hrun1, Hrun2, app_assoc.
  - exists (Fail e), w1, tr1. repeat split; try assumption.
    intros l. unfold bind. now rewrite Hrun1.
  - exists OutOfFuel, w1, tr1. repeat split; try assumption.
    intros l. unfold bind. now rewrite Hrun1.
Qed.

Lemma regular_try {A : Type} (P : Request -> Prop) (m : M W A) :
  regular rpcCall P m -> regular rpcCall P (try m).
Proof.
  intros Hm w. destruct (Hm w) as (r & w1 & tr1 & Hs1 & HP1 & Hrun1).
  exists (match r with
          | Ok a => Ok (inr a)
          | Fail e => Ok (inl e)
          | OutOfFuel => OutOfFuel
          end), w1, tr1.
  repeat split; try assumption.
  intros l. unfold try. rewrite Hrun1. now destruct r.
Qed.

Lemma regular_Call (P : Request -> Prop) (c : Request) :
  P c -> regular rpcCall P (Call rpcCall c).
Proof.
  intros Hc w.
  exists (match fst (rpcCall c w) with
          | inl err => Fail err
          | inr res => Ok res
          end), (snd (rpcCall c w)), [(c, fst (rpcCall c w))].
  repeat split.
  - repeat constructor.
  - repeat constructor. exact Hc.
  - intros l. unfold Call. simpl.
    destruct (rpcCall c w) as [[err|res] w']; reflexivity.
Qed.

Lemma regular_call (P : Request -> Prop) (c : Request) :
  P c -> regular rpcCall P (call rpcCall c).
Proof.
  intros Hc. unfold call. apply regular_bind; [now apply regular_Call|].
  intros res. apply regular_bind; [apply regular_xdr|].
  intros [status res']. destruct (NFS3Error status).
  - apply regular_fail.
  - apply regular_ret.
Qed.

(** One call: the request and its reply go to the log, the channel moves
    on, and the reply decides the outcome. *)
Lemma call_run (c : Request) (s : State W) :
  call rpcCall c s
  = (reply_result (fst (rpcCall c (chan s))),
     {| chan := snd (rpcCall c (chan s));
        log := log s ++ [(c, fst (rpcCall c (chan s)))] |}).
Proof.
  unfold call, bind, Call, reply_result.
  destruct (rpcCall c (chan s)) as [[err|res] w1]; simpl; [reflexivity|].
  destruct (xdr_Read as_uint32 res) as [err|[status res']]; simpl;
    [reflexivity|].
  now destruct (NFS3Error status).
Qed.

(** What regularity gives about one run. *)
Lemma regular_run {A : Type} (P : Request -> Prop) (m : M W A)
  (s : State W) :
  regular rpcCall P m ->
  exists tr,
    serves rpcCall (chan s) tr (chan (snd (m s)))
    /\ Forall (fun x => P (fst x)) tr
    /\ log (snd (m s)) = log s ++ tr.
Proof.
  intros Hm. destruct (Hm (chan s)) as (r & w' & tr & Hs & HP & Hrun).
  exists tr. destruct s as [w l]. simpl in *. rewrite Hrun. now simpl.
Qed.

(** The outcome and the channel do not depend on the log. *)
Lemma regular_same {A : Type} (P : Request -> Prop) (m : M W A)
  (s1 s2 : State W) :
  regular rpcCall P m -> chan s1 = chan s2 ->
  fst (m s1) = fst (m s2) /\ chan (snd (m s1)) = chan (snd (m s2)).
Proof.
  intros Hm E. destruct (Hm (chan s1)) as (r & w' & tr & _ & _ & Hrun).
  destruct s1 as [w1 l1], s2 as [w2 l2]. simpl in *. subst w2.
  now rewrite !Hrun.
Qed.

Lemma regular_quiet {A : Type} (P : Request -> Prop) (m : M W A)
  (s : State W) :
  quiet rpcCall P -> regular rpcCall P m -> chan (snd (m s)) = chan s.
Proof.
  intros Hq Hm. destruct (regular_run P m s Hm) as (tr & Hs & HP & _).
  eapply serves_quiet; eassumption.
Qed.

End Regularity.

(** One step of a regularity proof: the shape of the computation picks
    the lemma. *)
Ltac regular_step :=
  match goal with
  | |- regular _ _ (ret _) => apply regular_ret
  | |- regular _ _ (fail _) => apply regular_fail
  | |- regular _ _ out_of_fuel => apply regular_out_of_fuel
  | |- regular _ _ (xdr _) => apply regular_xdr
  | |- regular _ _ (try _) => apply regular_try
  | |- regular _ _ (bind _ _) => apply regular_bind; [|intros ?]
  | |- regular _ _ (call _ _) =>
      apply regular_call; repeat split; reflexivity
  | |- regular _ _ (match ?x with _ => _ end) => destruct x
  | |- regular _ _ (let '(_, _) := ?x in _) => destruct x
  | |- regular _ _ (if ?b then _ else _) => destruct b
  end.

Section ClientRegular.

Variable W : Type.
Variable rpcCall : Request -> W -> Reply * W.
Variable v : Target.t.

(** The requests of the resolver: standard header, LOOKUP or READLINK. *)
Let R (c : Request) : Prop := standard_header v c /\ resolving c.

Let H (c : Request) : Prop := standard_header v c.

Lemma R_H (c : Request) : R c -> H c.
Proof. now intros [? _]. Qed.

Lemma lookup_regular fh name : regular rpcCall R (lookup rpcCall v fh name).
Proof. unfold lookup. repeat regular_step. Qed.

Lemma readlinkFh_regular fh : regular rpcCall R (readlinkFh rpcCall v fh).
Proof. unfold readlinkFh. repeat regular_step. Qed.

Lemma lookupInner_loop_regular inner lookupLast lookupOrigin :
  (forall target origin, regular rpcCall R (inner target origin)) ->
  forall dirents fattr fh dirent prevFh,
    regular rpcCall R
      (lookupInner_loop rpcCall inner v lookupLast lookupOrigin
         dirents fattr fh dirent prevFh).
Proof.
  intros Hinner. induction dirents as [|d rest IH]; intros; simpl.
  - apply regular_ret.
  - repeat first
      [ apply IH | apply Hinner | apply lookup_regular
      | apply readlinkFh_regular | regular_step ].
Qed.

Lemma lookupInner_regular fuel fh p lookupLast lookupOrigin :
  regular rpcCall R
    (lookupInner rpcCall fuel v fh p lookupLast lookupOrigin).
Proof.
  revert fh p lookupLast lookupOrigin.
  induction fuel as [|fuel IH]; intros; simpl.
  - apply regular_out_of_fuel.
  - apply lookupInner_loop_regular. intros. apply IH.
Qed.

Lemma Lookup_regular fuel p : regular rpcCall R (Lookup rpcCall fuel v p).
Proof.
  unfold Lookup. repeat first [apply lookupInner_regular | regular_step].
Qed.

Lemma FSInfo_regular : regular rpcCall H (FSInfo' rpcCall v).
Proof. unfold FSInfo'. repeat regular_step. Qed.

Lemma access_regular fh path mode :
  regular rpcCall H (access rpcCall v fh path mode).
Proof. unfold access. repeat regular_step. Qed.

Lemma ReadDirPlusByFh_loop_regular fuel fh cookie cookieVerf entries :
  regular rpcCall H
    (ReadDirPlusByFh_loop rpcCall fuel v fh cookie cookieVerf entries).
Proof.
  revert cookie cookieVerf entries.
  induction fuel as [|fuel IH]; intros; simpl.
  - apply regular_out_of_fuel.
  - repeat first [apply IH | regular_step].
Qed.

Lemma ReadDirPlusByFh_regular fuel fh :
  regular rpcCall H (ReadDirPlusByFh rpcCall fuel v fh).
Proof. apply ReadDirPlusByFh_loop_regular. Qed.

Lemma MkdirByParentFh_regular fh name perm :
  regular rpcCall H (MkdirByParentFh rpcCall v fh name perm).
Proof. unfold MkdirByParentFh. repeat regular_step. Qed.

Lemma CreateByFh_regular fh name perm :
  regular rpcCall H (CreateByFh rpcCall v fh name perm).
Proof. unfold CreateByFh. repeat regular_step. Qed.

Lemma GetAttrFh_regular fh : regular rpcCall H (GetAttrFh rpcCall v fh).
Proof. unfold GetAttrFh. repeat regular_step. Qed.

Lemma GetAttrByFh_regular fh : regular rpcCall H (GetAttrByFh rpcCall v fh).
Proof. unfold GetAttrByFh. repeat regular_step. Qed.

Lemma SetAttrByFh_regular fh fattr :
  regular rpcCall H (SetAttrByFh rpcCall v fh fattr).
Proof. unfold SetAttrByFh. repeat regular_step. Qed.

Lemma remove_regular fh name : regular rpcCall H (remove rpcCall v fh name).
Proof. unfold remove. repeat regular_step. Qed.

Lemma rmDir_regular fh name : regular rpcCall H (rmDir rpcCall v fh name).
Proof. unfold rmDir. repeat regular_step. Qed.

Lemma RenameByFh_regular fromFh fromName toFh toName :
  regular rpcCall H (RenameByFh rpcCall v fromFh fromName toFh toName).
Proof. unfold RenameByFh. repeat regular_step. Qed.

Lemma removeAll_entries_regular recurse deleteDirfh entries :
  (forall fh, regular rpcCall H (recurse fh)) ->
  regular rpcCall H
    (removeAll_entries rpcCall recurse v deleteDirfh entries).
Proof.
  intros Hrec. induction entries as [|entry rest IH]; simpl.
  - apply regular_ret.
  - repeat first
      [ apply IH | apply Hrec | apply rmDir_regular | apply remove_regular
      | regular_step ].
Qed.

Lemma removeAll_regular fuel deleteDirfh :
  regular rpcCall H (removeAll rpcCall fuel v deleteDirfh).
Proof.
  revert deleteDirfh. induction fuel as [|fuel IH]; intros.
  - apply regular_out_of_fuel.
  - change (removeAll rpcCall (S fuel) v deleteDirfh)
      with (bind (ReadDirPlusByFh rpcCall (S fuel) v deleteDirfh)
              (removeAll_entries rpcCall (removeAll rpcCall fuel v) v
                 deleteDirfh)).
    apply regular_bind; [apply ReadDirPlusByFh_regular|].
    intros entries. now apply removeAll_entries_regular.
Qed.

(** Every exported method makes only requests with the standard header,
    and is regular. *)
Lemma perform_regular fuel op : regular rpcCall H (perform rpcCall fuel v op).
Proof.
  assert (HL : forall fh p l o,
             regular rpcCall H (lookupInner rpcCall fuel v fh p l o))
    by (intros; eapply regular_weaken;
        [apply R_H | apply lookupInner_regular]).
  assert (HK : forall p, regular rpcCall H (Lookup rpcCall fuel v p))
    by (intros; eapply regular_weaken; [apply R_H | apply Lookup_regular]).
  assert (HR : forall fh, regular rpcCall H (readlinkFh rpcCall v fh))
    by (intros; eapply regular_weaken;
        [apply R_H | apply readlinkFh_regular]).
  destruct op; simpl;
    unfold Access, ReadDirPlus, Mkdir, CreateTruncate, Create, GetAttr,
      Remove, RmDir, RemoveAll, Rename, Readlink;
    repeat first
      [ apply HL | apply HK | apply HR | apply FSInfo_regular
      | apply access_regular | apply ReadDirPlusByFh_regular
      | apply MkdirByParentFh_regular | apply CreateByFh_regular
      | apply GetAttrFh_regular | apply GetAttrByFh_regular
      | apply SetAttrByFh_regular | apply remove_regular
      | apply rmDir_regular | apply RenameByFh_regular
      | apply removeAll_regular | regular_step ].
Qed.

End ClientRegular.

(** C7. Every request made by every exported method of a target carries
    the header [rpcvers = 2], [prog = Nfs3Prog] (100003), [vers = 3], the
    procedure number of its argument structure, the target's credential
    and the [AuthNull] verifier. *)
Theorem every_request_has_the_standard_header :
  forall (W : Type) (rpcCall : Request -> W -> Reply * W)
         (fuel : nat) (v : Target.t) (op : Operation) (s : State W),
  exists tr,
    log (snd (perform rpcCall fuel v op s)) = log s ++ tr
    /\ Forall (fun x =>
                 header (fst x)
                 = {| Rpcvers := 2; Prog := Nfs3Prog; Vers := Nfs3Vers;
                      Proc := procedure (args (fst x));
                      Cred := Target.auth v; Verf := AuthNull |}) tr.
Proof.
  intros.
  destruct (regular_run W rpcCall _ _ s (perform_regular W rpcCall v fuel op))
    as (tr & _ & HP & Hlog).
  exists tr. split; [exact Hlog|].
  eapply Forall_impl; [|exact HP].
  intros [c rep] Hc. simpl in *. unfold standard_header in Hc.
  now rewrite Hc at 1.
Qed.

(* ================================================================== *)
(** ** The directory pager *)

(** The inner loop is the source's: read one [DirListPlus3], stop when it
    is not set, else take its cookie, append its entry and go on. *)
Lemma dirlist_unfold (res : Reader) (cookie : Z) (entries : list EntryPlus.t) :
  dirlist res cookie entries
  = match xdr_Read as_DirListPlus3 res with
    | inl err => inl err
    | inr (item, res') =>
        if negb (DirListPlus3.IsSet item) then inr (cookie, entries, res')
        else dirlist res' (EntryPlus.Cookie (DirListPlus3.Entry item))
               (entries ++ [DirListPlus3.Entry item])
    end.
Proof.
  destruct res as [|x res']; simpl; [reflexivity|].
  now destruct (as_DirListPlus3 x).
Qed.

Lemma last_cons {A : Type} (a d : A) (l : list A) :
  last (a :: l) d = last l a.
Proof.
  revert a d. induction l as [|b l IH]; intros a d; [reflexivity|].
  change (last (a :: b :: l) d) with (last (b :: l) d).
  now rewrite !IH.
Qed.

Lemma dirlist_entries_of (res : Reader) (cookie : Z)
  (entries : list EntryPlus.t) :
  dirlist res cookie entries
  = match entries_of res with
    | Some (es, rest) => inr (last_cookie cookie es, entries ++ es, rest)
    | None => inl ErrDecode
    end.
Proof.
  revert cookie entries.
  induction res as [|x res' IH]; intros; simpl; [reflexivity|].
  destruct x as [| | | | | |[e|]| | | | |]; simpl; try reflexivity.
  - rewrite IH. destruct (entries_of res') as [[es rest]|]; [|reflexivity].
    unfold last_cookie. rewrite map_cons, last_cons, <- app_assoc.
    reflexivity.
  - unfold last_cookie. now rewrite app_nil_r.
Qed.

Section Pager.

Variable W : Type.
Variable rpcCall : Request -> W -> Reply * W.
Variable v : Target.t.
Variable fh : Bytes.

(** One round of the [for !eof] loop, by what the reply holds. *)
Lemma ReadDirPlusByFh_loop_step fuel cookie verf acc (s : State W) :
  let c := standard v (ReadDirPlus3Args fh cookie verf 512 4096) in
  let rep := fst (rpcCall c (chan s)) in
  let s1 := {| chan := snd (rpcCall c (chan s));
               log := log s ++ [(c, rep)] |} in
  match page_of rep with
  | Some (verf', es, true) =>
      ReadDirPlusByFh_loop rpcCall (S fuel) v fh cookie verf acc s
      = (Ok (acc ++ es), s1)
  | Some (verf', es, false) =>
      ReadDirPlusByFh_loop rpcCall (S fuel) v fh cookie verf acc s
      = ReadDirPlusByFh_loop rpcCall fuel v fh (last_cookie cookie es) verf'
          (acc ++ es) s1
  | None =>
      exists err,
        ReadDirPlusByFh_loop rpcCall (S fuel) v fh cookie verf acc s
        = (Fail err, s1)
  end.
Proof.
  intros c rep s1. subst rep s1.
  assert (Hrun :
    ReadDirPlusByFh_loop rpcCall (S fuel) v fh cookie verf acc s
    = match reply_result (fst (rpcCall c (chan s))) with
      | Ok res =>
          (' (dirlistOK, res) <- xdr (xdr_Read as_DirListOK res) ;;
           ' (cookie, entries, res) <- xdr (dirlist res cookie acc) ;;
           ' (eof, _) <- xdr (xdr_Read as_bool res) ;;
           if eof then ret entries
           else ReadDirPlusByFh_loop rpcCall fuel v fh cookie
                  (DirListOK.CookieVerf dirlistOK) entries)
            {| chan := snd (rpcCall c (chan s));
               log := log s ++ [(c, fst (rpcCall c (chan s)))] |}
      | Fail err =>
          (Fail err, {| chan := snd (rpcCall c (chan s));
                        log := log s ++ [(c, fst (rpcCall c (chan s)))] |})
      | OutOfFuel =>
          (OutOfFuel, {| chan := snd (rpcCall c (chan s));
                         log := log s ++ [(c, fst (rpcCall c (chan s)))] |})
      end).
  { simpl. unfold bind at 1. now rewrite call_run. }
  rewrite Hrun. clear Hrun.
  destruct (fst (rpcCall c (chan s))) as [err|res]; simpl.
  - now exists err.
  - destruct res as [|x res]; simpl; [now exists ErrDecode|].
    destruct x as [status| | | | | | | | | | |]; simpl;
      try (now exists ErrDecode).
    unfold NFS3Error, NFS3Ok.
    destruct (status =? 0) eqn:Est; simpl.
    + destruct res as [|y res]; simpl.
      { now exists ErrDecode. }
      destruct y as [| | | | |dirattrs verf'| | | | | |]; simpl;
        try (now exists ErrDecode).
      unfold bind, xdr. simpl. rewrite dirlist_entries_of.
      destruct (entries_of res) as [[es rest]|]; simpl;
        [|now exists ErrDecode].
      destruct rest as [|z rest]; simpl; [now exists ErrDecode|].
      destruct z as [|eof| | | | | | | | | |]; simpl;
        try (now exists ErrDecode).
      destruct eof; reflexivity.
    + destruct res as [|y res]; [now exists (ErrNFS status)|].
      destruct y; now exists (ErrNFS status).
Qed.

Lemma ReadDirPlusByFh_loop_sound fuel :
  forall cookie verf acc (s s' : State W) entries,
    ReadDirPlusByFh_loop rpcCall fuel v fh cookie verf acc s
    = (Ok entries, s') ->
    exists tr es,
      (List.length tr <= fuel)%nat
      /\ serves rpcCall (chan s) tr (chan s')
      /\ log s' = log s ++ tr
      /\ paged v fh cookie verf tr es
      /\ entries = acc ++ es.
Proof.
  induction fuel as [|fuel IH]; intros cookie verf acc s s' entries Hrun.
  - discriminate.
  - pose proof (ReadDirPlusByFh_loop_step fuel cookie verf acc s) as Hstep.
    cbv zeta in Hstep.
    set (c := standard v (ReadDirPlus3Args fh cookie verf 512 4096)) in *.
    destruct (page_of (fst (rpcCall c (chan s))))
      as [[[verf' es] [|]]|] eqn:Hpage.
    + rewrite Hstep in Hrun. injection Hrun as <- <-.
      exists [(c, fst (rpcCall c (chan s)))], es. simpl.
      repeat split; try lia.
      * repeat constructor.
      * econstructor. exact Hpage.
    + rewrite Hstep in Hrun. apply IH in Hrun.
      destruct Hrun as (tr & es' & Hlen & Hs & Hlog & Hp & ->).
      exists ((c, fst (rpcCall c (chan s))) :: tr), (es ++ es').
      simpl in *. repeat split; try lia.
      * constructor. exact Hs.
      * now rewrite Hlog, <- app_assoc.
      * econstructor; eassumption.
      * now rewrite app_assoc.
    + destruct Hstep as [err Hstep]. rewrite Hstep in Hrun. discriminate.
Qed.

Lemma ReadDirPlusByFh_loop_complete tr :
  forall cookie verf es,
    paged v fh cookie verf tr es ->
    forall fuel acc (s : State W) w',
      (List.length tr <= fuel)%nat ->
      serves rpcCall (chan s) tr w' ->
      ReadDirPlusByFh_loop rpcCall fuel v fh cookie verf acc s
      = (Ok (acc ++ es), {| chan := w'; log := log s ++ tr |}).
Proof.
  intros cookie verf es Hp.
  induction Hp as [cookie verf rep verf' es Hpage
                  |cookie verf rep verf' es tr es' Hpage Hp IH];
    intros fuel acc s w' Hlen Hs.
  - destruct fuel as [|fuel]; [simpl in Hlen; lia|].
    inversion Hs as [|w0 c0 tr0 w0' Hs' E1 E2 E3]; subst.
    inversion Hs'; subst.
    pose proof (ReadDirPlusByFh_loop_step fuel cookie verf acc s) as Hstep.
    cbv zeta in Hstep. rewrite Hpage in Hstep. exact Hstep.
  - destruct fuel as [|fuel]; [simpl in Hlen; lia|].
    inversion Hs as [|w0 c0 tr0 w0' Hs' E1 E2 E3]; subst.
    pose proof (ReadDirPlusByFh_loop_step fuel cookie verf acc s) as Hstep.
    cbv zeta in Hstep. rewrite Hpage in Hstep. rewrite Hstep.
    rewrite (IH fuel (acc ++ es) _ w'); simpl in *; try lia; try assumption.
    now rewrite <- !app_assoc.
Qed.

Lemma ReadDirPlusByFh_loop_paging fuel :
  forall cookie verf acc (s : State W),
  exists tr,
    log (snd (ReadDirPlusByFh_loop rpcCall fuel v fh cookie verf acc s))
    = log s ++ tr
    /\ paging v fh cookie verf tr.
Proof.
  induction fuel as [|fuel IH]; intros cookie verf acc s.
  - exists []. split; [simpl; now rewrite app_nil_r|constructor].
  - pose proof (ReadDirPlusByFh_loop_step fuel cookie verf acc s) as Hstep.
    cbv zeta in Hstep.
    set (c := standard v (ReadDirPlus3Args fh cookie verf 512 4096)) in *.
    destruct (page_of (fst (rpcCall c (chan s))))
      as [[[verf' es] [|]]|] eqn:Hpage.
    + rewrite Hstep. exists [(c, fst (rpcCall c (chan s)))].
      split; [reflexivity|constructor].
    + rewrite Hstep.
      destruct (IH (last_cookie cookie es) verf' (acc ++ es)
                  {| chan := snd (rpcCall c (chan s));
                     log := log s ++ [(c, fst (rpcCall c (chan s)))] |})
        as (tr & Hlog & Hp).
      exists ((c, fst (rpcCall c (chan s))) :: tr). split.
      * rewrite Hlog. simpl. now rewrite <- app_assoc.
      * econstructor; eassumption.
    + destruct Hstep as [err Hstep]. rewrite Hstep.
      exists [(c, fst (rpcCall c (chan s)))].
      split; [reflexivity|constructor].
Qed.

End Pager.

(** C5. [ReadDirPlusByFh] returns a listing exactly when the channel
    serves a run of pages as section 4.3 describes it: the first request
    has cookie 0 and verifier 0, every request has [dircount = 512] and
    [maxcount = 4096], after a page with [eof = false] the next request
    carries the cookie of the last entry decoded and the verifier of that
    page, and the result is the entries of the pages in order up to the
    page with [eof = true].  The requests of a run that fails or is cut
    short follow the same rule. *)
Theorem ReadDirPlusByFh_pages :
  forall (W : Type) (rpcCall : Request -> W -> Reply * W)
         (fuel : nat) (v : Target.t) (fh : Bytes)
         (s s' : State W) (entries : list EntryPlus.t),
    (ReadDirPlusByFh rpcCall fuel v fh s = (Ok entries, s')
     <-> exists tr,
           (List.length tr <= fuel)%nat
           /\ serves rpcCall (chan s) tr (chan s')
           /\ log s' = log s ++ tr
           /\ paged v fh 0 0 tr entries)
    /\ exists tr,
         log (snd (ReadDirPlusByFh rpcCall fuel v fh s)) = log s ++ tr
         /\ paging v fh 0 0 tr.
Proof.
  intros. unfold ReadDirPlusByFh. split; [split|].
  - intros Hrun. apply ReadDirPlusByFh_loop_sound in Hrun.
    destruct Hrun as (tr & es & Hlen & Hs & Hlog & Hp & ->).
    exists tr. now repeat split.
  - intros (tr & Hlen & Hs & Hlog & Hp).
    rewrite (ReadDirPlusByFh_loop_complete W rpcCall v fh tr 0 0 entries Hp
               fuel [] s (chan s') Hlen Hs).
    destruct s' as [w' l']. simpl in *. now rewrite Hlog.
  - apply ReadDirPlusByFh_loop_paging.
Qed.

(** The same at a concrete input: a directory of four entries served two
    to the page is listed with two requests, the second with the cookie of
    the second entry and the verifier of the first page. *)
Lemma ReadDirPlusByFh_pages_witness :
  let run := ReadDirPlusByFh (Exports.serve (tree true)) 2 mounted
               (Some [x02]) fresh in
  exists tr,
    map (fun x => args (fst x)) tr
    = [ReadDirPlus3Args (Some [x02]) 0 0 512 4096;
       ReadDirPlus3Args (Some [x02]) 2 7 512 4096]
    /\ paged mounted (Some [x02]) 0 0 tr
         (match fst run with Ok entries => entries | _ => [] end).
Proof.
  intros run.
  destruct (proj1 (proj1 (ReadDirPlusByFh_pages
                     _ (Exports.serve (tree true)) 2 mounted (Some [x02])
                     fresh (snd run)
                     (match fst run with Ok entries => entries | _ => [] end)))
              eq_refl)
    as (tr & Hlen & Hserves & Hlog & Hpaged).
  exists tr. split; [|exact Hpaged].
  simpl in Hlog. rewrite <- Hlog. reflexivity.
Defined.

(* ================================================================== *)
(** ** The path resolver *)

Lemma bind_ext {W A B : Type} (m : M W A) (k k' : A -> M W B) (s : State W) :
  (forall a s', k a s' = k' a s') -> bind m k s = bind m k' s.
Proof.
  intros Hk. unfold bind. destruct (m s) as [[a|e|] s']; auto.
Qed.

Lemma bind_assoc {W A B C : Type} (m : M W A) (k : A -> M W B)
  (k' : B -> M W C) (s : State W) :
  bind (bind m k) k' s = bind m (fun a => bind (k a) k') s.
Proof.
  unfold bind. destruct (m s) as [[a|e|] s']; reflexivity.
Qed.

Section Resolver.

Variable W : Type.
Variable rpcCall : Request -> W -> Reply * W.
Variable v : Target.t.
Variable inner : string -> Bytes -> M W Resolved.

(** The loop over [ds1 ++ ds2] does [ds1] as inner components, whatever
    [lookupLast] is, and goes on with [ds2] from the variables it
    reached. *)
Lemma lookupInner_loop_app lookupLast lookupOrigin ds2 :
  ds2 <> [] ->
  forall ds1 fattr fh dirent prevFh (s : State W),
    lookupInner_loop rpcCall inner v lookupLast lookupOrigin (ds1 ++ ds2)
      fattr fh dirent prevFh s
    = bind (lookupInner_loop rpcCall inner v true lookupOrigin ds1
              fattr fh dirent prevFh)
        (fun r => let '(fattr, fh, dirent, prevFh) := r in
                  lookupInner_loop rpcCall inner v lookupLast lookupOrigin
                    ds2 fattr fh dirent prevFh) s.
Proof.
  intros Hds2. induction ds1 as [|d rest IH]; intros.
  - reflexivity.
  - simpl app.
    cbn [lookupInner_loop].
    replace (match rest ++ ds2 with [] => true | _ :: _ => false end)
      with false
      by (destruct rest; [destruct ds2; [contradiction|] |]; reflexivity).
    rewrite andb_false_r. cbn [andb].
    destruct (is_dot d || is_empty d); [apply IH|].
    rewrite bind_assoc. apply bind_ext. intros [[fattr' fh'] dirattr] s1.
    destruct (Z.land (FileMode fattr') 61440 =? 40960); [|apply IH].
    destruct (negb (is_nil lookupOrigin) && sameHandle fh' lookupOrigin);
      [reflexivity|].
    rewrite bind_assoc. apply bind_ext. intros [la target] s2.
    rewrite bind_assoc. apply bind_ext. intros r s3. apply IH.
Qed.

End Resolver.

(** C9. When the last component of a path is a symlink and resolving its
    target fails, [lookupInner] drops the error: [Lookup] returns the
    attributes of the symlink, a nil handle and no error. *)
Theorem Lookup_drops_the_error_of_a_symlink_target :
  forall (W : Type) (rpcCall : Request -> W -> Reply * W)
         (fuel : nat) (v : Target.t) (p : string)
         (pre : list string) (name : string)
         (s s0 s1 s2 s3 : State W)
         (fattr0 : option Fattr) (cur prev0 : Bytes) (dirent0 : string)
         (linkattr dirattr readattr : Fattr) (link : Bytes)
         (target : string) (err : error),
    strings_Split p "/" = pre ++ [name] ->
    is_dot name || is_empty name = false ->
    lookupInner_loop rpcCall
      (fun target origin =>
         lookupInner rpcCall fuel v (Target.fh v) target true origin)
      v true None pre None (Target.fh v) EmptyString None s
    = (Ok (fattr0, cur, dirent0, prev0), s0) ->
    lookup rpcCall v cur name s0 = (Ok (linkattr, link, dirattr), s1) ->
    is_symlink linkattr = true ->
    readlinkFh rpcCall v link s1 = (Ok (readattr, target), s2) ->
    lookupInner rpcCall fuel v (Target.fh v) target true link s2
    = (Fail err, s3) ->
    Lookup rpcCall (S fuel) v p s = (Ok (Some linkattr, None), s3).
Proof.
  intros until err. intros Hsplit Hname Hpre Hlookup Hlink Hread Hinner.
  unfold Lookup. cbn [lookupInner]. rewrite Hsplit.
  unfold bind at 1. rewrite lookupInner_loop_app by discriminate.
  unfold bind at 1. rewrite Hpre.
  cbn [lookupInner_loop andb negb]. rewrite Hname.
  unfold bind at 1. rewrite Hlookup.
  unfold is_symlink in Hlink. rewrite Hlink. cbn [is_nil negb andb].
  unfold bind at 1. rewrite Hread.
  unfold bind at 1, try. rewrite Hinner. reflexivity.
Qed.

(** The same at a concrete input: [/a] is a symlink to itself, the
    recursive resolution fails with "recursed symlink", and [Lookup]
    returns no error. *)
Lemma Lookup_drops_the_error_of_a_symlink_target_witness :
  Lookup (Exports.serve selfLoop) 2 mounted "a" fresh
  = (Ok (Some (Exports.attr NF3Lnk 41471 2), None),
     snd (Lookup (Exports.serve selfLoop) 2 mounted "a" fresh)).
Proof.
  eapply (Lookup_drops_the_error_of_a_symlink_target
            _ (Exports.serve selfLoop) 1 mounted "a" [] "a"
            fresh fresh _ _ _ None (Some [x01]) None EmptyString
            _ _ _ (Some [x02]) "a" (Errorf "recursed symlink")).
  - reflexivity.
  - reflexivity.
  - reflexivity.
  - reflexivity.
  - reflexivity.
  - reflexivity.
  - reflexivity.
Defined.

(** C6, as stated the property fails: with [lookupLast = true], [d/] and [d]
    resolve to different results (the final component and [prevFh]
    differ). *)
Lemma trailing_slash_counterexample :
  fst (lookupInner (Exports.serve linked) 1 mounted (Some [x01]) "d/"
         true None fresh)
  <> fst (lookupInner (Exports.serve linked) 1 mounted (Some [x01]) "d"
            true None fresh).
Proof. vm_compute. discriminate. Qed.

(* ================================================================== *)
(** ** Rename *)

(** C2, what the code does instead: on a target with a non-nil root
    handle, [Rename("/", "/x")] passes both nil tests and sends a RENAME
    of the empty name under the root to [x] under the root. *)
Theorem Rename_of_the_root_calls_the_server :
  forall (W : Type) (rpcCall : Request -> W -> Reply * W) (fuel : nat)
         (auth : Auth) (h : list byte) (dirPath : string)
         (fsinfo : option FSInfo) (s : State W),
    let v := {| Target.auth := auth; Target.fh := Some h;
                Target.dirPath := dirPath; Target.fsinfo := fsinfo |} in
    let c := standard v (Rename3Args (dirop (Some h) "")
                                     (dirop (Some h) "x")) in
    Rename rpcCall (S fuel) v "/" "/x" s
    = RenameByFh rpcCall v (Some h) "" (Some h) "x" s
    /\ log (snd (Rename rpcCall (S fuel) v "/" "/x" s))
       = log s ++ [(c, fst (rpcCall c (chan s)))].
Proof.
  intros. assert (E : Rename rpcCall (S fuel) v "/" "/x" s
                      = RenameByFh rpcCall v (Some h) "" (Some h) "x" s)
    by reflexivity.
  split; [exact E|]. rewrite E. unfold RenameByFh, bind.
  rewrite call_run.
  match goal with
  | |- context [rpcCall ?x (chan s)] => change x with c
  end.
  destruct (reply_result (fst (rpcCall c (chan s)))) as [res|err|];
    try reflexivity.
  unfold xdr. now destruct (xdr_Read as_Rename3Res res) as [err|[r rest]].
Qed.

(* ================================================================== *)
(** ** Create and Mkdir *)

(** C10. When the server's CREATE and MKDIR replies succeed and leave out
    the optional handle, [MkdirByParentFh] and [CreateByFh] return a nil
    handle and no error. *)
Theorem create_without_a_handle_returns_nil :
  forall (W : Type) (rpcCall : Request -> W -> Reply * W)
         (v : Target.t) (fh : Bytes) (name : string) (perm : Z)
         (s : State W),
    omits_handle rpcCall (chan s) ->
    fst (MkdirByParentFh rpcCall v fh name perm s) = Ok None
    /\ fst (CreateByFh rpcCall v fh name perm s) = Ok None.
Proof.
  intros until s. intros Homits. split.
  - unfold MkdirByParentFh, bind. rewrite call_run.
    match goal with
    | |- context [rpcCall ?c (chan s)] =>
        destruct (Homits c) as (attr & wcc & res & ->)
    end.
    reflexivity.
  - unfold CreateByFh, bind. rewrite call_run.
    match goal with
    | |- context [rpcCall ?c (chan s)] =>
        destruct (Homits c) as (attr & wcc & res & ->)
    end.
    reflexivity.
Qed.

Lemma create_without_a_handle_returns_nil_witness :
  fst (MkdirByParentFh terse mounted (Some [x01]) "n" 493
         {| chan := tt; log := [] |}) = Ok None
  /\ fst (CreateByFh terse mounted (Some [x01]) "n" 420
            {| chan := tt; log := [] |}) = Ok None.
Proof.
  split.
  - apply (create_without_a_handle_returns_nil
             unit terse mounted (Some [x01]) "n" 493
             {| chan := tt; log := [] |}).
    intros c. destruct (args c); try exact I;
      exists None, Exports.noWcc, []; reflexivity.
  - apply (create_without_a_handle_returns_nil
             unit terse mounted (Some [x01]) "n" 420
             {| chan := tt; log := [] |}).
    intros c. destruct (args c); try exact I;
      exists None, Exports.noWcc, []; reflexivity.
Defined.

(* ================================================================== *)
(** ** Symlink cycles *)

(** On [/a -> b], [/b -> a], resolving [a] coming from [b] and resolving
    [b] coming from [a] call each other for ever: each compares the handle
    it finds with the handle of the other link only. *)
Lemma twoCycle_diverges (fuel : nat) :
  forall l,
    (forall origin,
        origin = None \/ origin = Some [x03] ->
        fst (lookupInner (Exports.serve twoCycle) fuel mounted (Some [x01])
               "a" true origin {| chan := []; log := l |}) = OutOfFuel)
    /\ fst (lookupInner (Exports.serve twoCycle) fuel mounted (Some [x01])
              "b" true (Some [x02]) {| chan := []; log := l |}) = OutOfFuel.
Proof.
  induction fuel as [|fuel IH]; intros l;
    [split; [intros|]; reflexivity|].
  assert (Ha : forall origin l',
             origin = None \/ origin = Some [x03] ->
             fst (lookupInner (Exports.serve twoCycle) fuel mounted
                    (Some [x01]) "a" true origin {| chan := []; log := l' |})
             = OutOfFuel)
    by (intros; now apply (proj1 (IH _))).
  assert (Hb : forall l',
             fst (lookupInner (Exports.serve twoCycle) fuel mounted
                    (Some [x01]) "b" true (Some [x02])
                    {| chan := []; log := l' |})
             = OutOfFuel)
    by (intros; apply (proj2 (IH _))).
  clear IH. split.
  - intros origin [-> | ->];
      cbn [lookupInner];
      repeat first [rewrite call_run | progress cbn
                   | progress unfold bind, try, lookup, readlinkFh];
      match goal with
      | |- context [lookupInner ?srv fuel ?v ?h "b" true ?o ?st] =>
          assert (Hx : fst (lookupInner srv fuel v h "b" true o st)
                       = OutOfFuel) by apply Hb;
          destruct (lookupInner srv fuel v h "b" true o st) as [r s'];
          simpl in Hx; now subst r
      end.
  - cbn [lookupInner];
      repeat first [rewrite call_run | progress cbn
                   | progress unfold bind, try, lookup, readlinkFh];
      match goal with
      | |- context [lookupInner ?srv fuel ?v ?h "a" true ?o ?st] =>
          assert (Hx : fst (lookupInner srv fuel v h "a" true o st)
                       = OutOfFuel) by (apply Ha; now right);
          destruct (lookupInner srv fuel v h "a" true o st) as [r s'];
          simpl in Hx; now subst r
      end.
Qed.

(** C1, what the code does instead.  On a symlink to itself the cycle is
    found, but the error is dropped and [Lookup] returns the attributes of
    the link, a nil handle and no error, with any recursion budget of two
    or more.  On a cycle of two symlinks the cycle is never found:
    [Lookup] has no outcome within any recursion budget.  What holds of
    the property: on every server and path, [Lookup] makes LOOKUP and
    READLINK calls only. *)
Theorem Lookup_on_symlink_cycles :
  (forall fuel,
      fst (Lookup (Exports.serve selfLoop) (2 + fuel) mounted "a" fresh)
      = Ok (Some (Exports.attr NF3Lnk 41471 2), None))
  /\ (forall fuel,
         fst (Lookup (Exports.serve twoCycle) fuel mounted "a" fresh)
         = OutOfFuel)
  /\ (forall (W : Type) (rpcCall : Request -> W -> Reply * W)
             (fuel : nat) (v : Target.t) (p : string) (s : State W),
         exists tr,
           log (snd (Lookup rpcCall fuel v p s)) = log s ++ tr
           /\ Forall (fun x => resolving (fst x)) tr).
Proof.
  split; [|split].
  - intros fuel. reflexivity.
  - intros fuel. unfold Lookup, bind.
    match goal with
    | |- context [lookupInner ?srv fuel ?v ?h "a" true ?o ?st] =>
        assert (Ha : fst (lookupInner srv fuel v h "a" true o st) = OutOfFuel)
          by (apply (proj1 (twoCycle_diverges fuel [])); left; reflexivity);
        destruct (lookupInner srv fuel v h "a" true o st) as [r s']
    end.
    simpl in Ha. now subst r.
  - intros.
    destruct (regular_run W rpcCall _ _ s (Lookup_regular W rpcCall v fuel p))
      as (tr & _ & HP & Hlog).
    exists tr. split; [exact Hlog|].
    eapply Forall_impl; [|exact HP]. now intros x [_ Hx].
Qed.

(* ================================================================== *)
(** ** Lookup and GetAttr *)

Lemma reply_result_Ok (rep : Reply) (res : Reader) :
  reply_result rep = Ok res -> rep = inr (XUint32 0 :: res).
Proof.
  unfold reply_result. destruct rep as [err|[|x res']]; simpl;
    try discriminate.
  destruct x; simpl; try discriminate.
  unfold NFS3Error, NFS3Ok. destruct (n =? 0) eqn:E; [|discriminate].
  apply Z.eqb_eq in E. subst n. now intros [= ->].
Qed.

Section Attributes.

Variable W : Type.
Variable rpcCall : Request -> W -> Reply * W.
Variable v : Target.t.

(** In state [w], a LOOKUP reply gives the handle [h] with the attributes
    [fattr]. *)
Let served (w : W) (fattr : Fattr) (h : Bytes) : Prop :=
  exists hdr what hb attr dirattr res,
    fst (rpcCall {| header := hdr; args := Lookup3Args what |} w)
    = inr (XUint32 0 :: XLookupOk hb attr dirattr :: res)
    /\ h = Some hb
    /\ fattr = PostOpAttr.Attr (PostOpAttr.decode attr).

(** The loop variables [fattr] and [fh] belong together unless [fattr] is
    a symlink's. *)
Let paired (w : W) (fattr : option Fattr) (h : Bytes) : Prop :=
  match fattr with
  | None => True
  | Some a => is_symlink a = false -> served w a h
  end.

Lemma lookup_served fh name (s s' : State W) fattr h dirattr :
  lookup rpcCall v fh name s = (Ok (fattr, h, dirattr), s') ->
  served (chan s) fattr h.
Proof.
  unfold lookup, bind. rewrite call_run.
  destruct (reply_result _) as [res|err|] eqn:Hrep; try discriminate.
  apply reply_result_Ok in Hrep.
  destruct res as [|x res]; simpl; try discriminate.
  destruct x; simpl; try discriminate.
  intros [= <- <- <- <-]. unfold served. repeat eexists. exact Hrep.
Qed.

Lemma GetAttrFh_served fh (s s' : State W) fattr :
  GetAttrFh rpcCall v fh s = (Ok fattr, s') ->
  exists res,
    fst (rpcCall (standard v (GetAttrArgs fh)) (chan s))
    = inr (XUint32 0 :: XFattr fattr :: res).
Proof.
  unfold GetAttrFh, bind. rewrite call_run.
  destruct (reply_result _) as [res|err|] eqn:Hrep; try discriminate.
  apply reply_result_Ok in Hrep.
  destruct res as [|x res]; simpl; try discriminate.
  destruct x; simpl; try discriminate.
  intros [= <- <-]. exists res. exact Hrep.
Qed.

Hypothesis Hquiet : quiet rpcCall reading.

Let R (c : Request) : Prop := standard_header v c /\ resolving c.

Lemma resolving_reading (c : Request) : R c -> reading c.
Proof.
  unfold R, resolving, reading. intros [_ Hc]. now destruct (args c).
Qed.

Lemma resolver_quiet {A : Type} (m : M W A) (s : State W) :
  regular rpcCall R m -> chan (snd (m s)) = chan s.
Proof.
  intros Hm. apply (regular_quiet W rpcCall reading); [exact Hquiet|].
  eapply regular_weaken; [apply resolving_reading|exact Hm].
Qed.

Lemma lookupInner_loop_paired inner lookupOrigin :
  (forall target origin, regular rpcCall R (inner target origin)) ->
  forall dirents fattr fh dirent prevFh (s s' : State W) fattr' fh' d' p',
    paired (chan s) fattr fh ->
    lookupInner_loop rpcCall inner v true lookupOrigin dirents
      fattr fh dirent prevFh s = (Ok (fattr', fh', d', p'), s') ->
    paired (chan s) fattr' fh'.
Proof.
  intros Hinner. induction dirents as [|d rest IH];
    intros fattr fh dirent prevFh s s' fattr' fh' d' p' Hpaired Hrun.
  - injection Hrun as <- <- <- <- <-. exact Hpaired.
  - cbn [lookupInner_loop negb] in Hrun. rewrite andb_false_r in Hrun.
    destruct (is_dot d || is_empty d); [now eapply IH; eauto|].
    unfold bind at 1 in Hrun.
    destruct (lookup rpcCall v fh d s) as [[[[fa h] da]|err|] s1] eqn:Hl;
      try discriminate.
    assert (E1 : chan s1 = chan s)
      by (change s1 with (snd (Ok (fa, h, da), s1)); rewrite <- Hl;
          apply resolver_quiet, lookup_regular).
    destruct (Z.land (FileMode fa) 61440 =? 40960) eqn:Hsym.
    + destruct (negb (is_nil lookupOrigin) && sameHandle h lookupOrigin);
        [discriminate|].
      unfold bind at 1 in Hrun.
      destruct (readlinkFh rpcCall v h s1) as [[[la target]|err|] s2] eqn:Hr;
        try discriminate.
      assert (E2 : chan s2 = chan s1)
        by (change s2 with (snd (Ok (la, target), s2)); rewrite <- Hr;
            apply resolver_quiet, readlinkFh_regular).
      unfold bind at 1 in Hrun.
      destruct (try (inner target h) s2) as [[r|err|] s3] eqn:Ht;
        try discriminate.
      assert (E3 : chan s3 = chan s2)
        by (change s3 with (snd (Ok r, s3)); rewrite <- Ht;
            apply resolver_quiet, regular_try, Hinner).
      apply IH in Hrun.
      * now rewrite E3, E2, E1 in Hrun.
      * simpl. unfold is_symlink. rewrite Hsym. discriminate.
    + apply IH in Hrun.
      * now rewrite E1 in Hrun.
      * simpl. intros _. rewrite E1. eapply lookup_served. exact Hl.
Qed.

Lemma Lookup_paired fuel p (s s' : State W) fattr h :
  Lookup rpcCall fuel v p s = (Ok (Some fattr, h), s') ->
  is_symlink fattr = false ->
  served (chan s) fattr h.
Proof.
  unfold Lookup, bind. destruct fuel as [|fuel]; [discriminate|].
  cbn [lookupInner].
  destruct (lookupInner_loop _ _ _ _ _ _ _ _ _ _ s)
    as [[[[[fa fh] d'] p']|err|] s1] eqn:Hrun; try discriminate.
  intros [= -> -> <-] Hsym.
  eapply lookupInner_loop_paired in Hrun.
  - now apply Hrun.
  - intros. apply lookupInner_regular.
  - exact I.
Qed.

(** C3, as the code has it: on a server that the reading calls leave
    unchanged and whose LOOKUP and GETATTR attributes agree, [Lookup] and
    then [GetAttr] of the same path agree on type, fileid, mode, nlink and
    size when [Lookup] returns attributes that are not a symlink's. *)
Theorem Lookup_and_GetAttr_agree_unless_symlink :
  forall (fuel : nat) (path : string) (s s1 s2 : State W)
         (fattr fattr' : Fattr) (fh fh' : Bytes),
    coherent rpcCall (chan s) ->
    Lookup rpcCall fuel v path s = (Ok (Some fattr, fh), s1) ->
    GetAttr rpcCall fuel v path s1 = (Ok (Some fattr', fh', None), s2) ->
    is_symlink fattr = false ->
    agree fattr fattr'.
Proof.
  intros until fh'. intros Hcoh Hlookup Hgetattr Hsym.
  assert (E1 : chan s1 = chan s)
    by (change s1 with (snd (Ok (Some fattr, fh), s1)); rewrite <- Hlookup;
        apply resolver_quiet, Lookup_regular).
  destruct (regular_same W rpcCall R (Lookup rpcCall fuel v path) s1 s
              (Lookup_regular W rpcCall v fuel path) E1) as [Eres Echan].
  rewrite Hlookup in Eres, Echan. simpl in Eres, Echan.
  unfold GetAttr, bind in Hgetattr.
  destruct (Lookup rpcCall fuel v path s1) as [r s1'].
  simpl in Eres, Echan. subst r.
  unfold try in Hgetattr.
  destruct (GetAttrFh rpcCall v fh s1') as [[a|err|] s2'] eqn:Hg;
    try discriminate.
  injection Hgetattr as <- <- <-.
  apply GetAttrFh_served in Hg. destruct Hg as [res' Hg].
  rewrite Echan, E1 in Hg.
  destruct (Lookup_paired fuel path s s1 fattr fh Hlookup Hsym)
    as (hdr & what & hb & attr & dirattr & res & Hrep & -> & ->).
  eapply Hcoh; eassumption.
Qed.

End Attributes.

(** The example server is quiet on reading calls and coherent in every
    state. *)
Lemma serve_quiet (ex : Exports.t) : quiet (Exports.serve ex) reading.
Proof.
  intros c rm Hc. unfold reading in Hc. unfold Exports.serve.
  destruct (args c); try contradiction;
    unfold Exports.with_dir, Exports.with_node;
    repeat match goal with
           | |- context [match ?x with _ => _ end] => destruct x
           end; reflexivity.
Qed.

Lemma serve_coherent (ex : Exports.t) (rm : Exports.Removed) :
  coherent (Exports.serve ex) rm.
Proof.
  intros hdr hdr' what fh attr dirattr res a res'.
  unfold Exports.serve, Exports.with_dir, Exports.with_node,
    Exports.status. simpl.
  destruct (Diropargs3.FH what) as [h|]; [|discriminate].
  destruct (Exports.find_node ex h) as [dir|]; [|discriminate].
  destruct (Type_ (Exports.n_attr dir) =? NF3Dir); [|discriminate].
  destruct (Exports.child rm dir (Diropargs3.Filename what)) as [hc|];
    [|discriminate].
  destruct (Exports.find_node ex hc) as [n|] eqn:Hn; [|discriminate].
  simpl. intros [= <- <- <- <-]. rewrite Hn. simpl. intros [= <- <-].
  simpl. now repeat split.
Qed.

Lemma Lookup_and_GetAttr_agree_unless_symlink_witness :
  let run := Lookup (Exports.serve linked) 1 mounted "d/g" fresh in
  fst run = Ok (Some (Exports.attr NF3Reg 33188 5), Some [x05])
  /\ fst (GetAttr (Exports.serve linked) 1 mounted "d/g" (snd run))
     = Ok (Some (Exports.attr NF3Reg 33188 5), Some [x05], None)
  /\ agree (Exports.attr NF3Reg 33188 5) (Exports.attr NF3Reg 33188 5).
Proof.
  split; [reflexivity|]. split; [reflexivity|].
  apply (Lookup_and_GetAttr_agree_unless_symlink
             _ (Exports.serve linked) mounted (serve_quiet linked)
             1 "d/g" fresh
             (snd (Lookup (Exports.serve linked) 1 mounted "d/g" fresh))
             (snd (GetAttr (Exports.serve linked) 1 mounted "d/g"
                     (snd (Lookup (Exports.serve linked) 1 mounted "d/g"
                             fresh))))
             (Exports.attr NF3Reg 33188 5) (Exports.attr NF3Reg 33188 5)
             (Some [x05]) (Some [x05])).
  - apply serve_coherent.
  - reflexivity.
  - reflexivity.
  - reflexivity.
Defined.

(** C3, as stated the property fails: [/s] is a symlink to the regular file
    [/f]; both calls succeed on the unchanged server, [Lookup] returns the
    attributes of the link with the handle of the file, [GetAttr] the
    attributes of the file, and the two differ in type, fileid and mode. *)
Lemma Lookup_GetAttr_symlink_counterexample :
  let run := Lookup (Exports.serve linked) 2 mounted "s" fresh in
  fst run = Ok (Some (Exports.attr NF3Lnk 41471 2), Some [x03])
  /\ chan (snd run) = chan fresh
  /\ fst (GetAttr (Exports.serve linked) 2 mounted "s" (snd run))
     = Ok (Some (Exports.attr NF3Reg 33188 3), Some [x03], None)
  /\ ~ agree (Exports.attr NF3Lnk 41471 2) (Exports.attr NF3Reg 33188 3).
Proof.
  repeat split; try reflexivity.
  intros (Htype & _). discriminate.
Qed.

(* ================================================================== *)
(** ** RemoveAll *)

Section Remover.

Variable W : Type.
Variable rpcCall : Request -> W -> Reply * W.
Variable v : Target.t.

(** A successful RMDIR or REMOVE: one call, answered with status zero. *)
Lemma rmDir_Ok fh name (s s' : State W) :
  rmDir rpcCall v fh name s = (Ok tt, s') ->
  exists rep,
    has_status 0 rep
    /\ log s' = log s ++ [(standard v (RmDir3Args (dirop fh name)), rep)].
Proof.
  unfold rmDir, bind. rewrite call_run.
  destruct (reply_result _) as [res|err|] eqn:Hrep; try discriminate.
  apply reply_result_Ok in Hrep. intros [= <-].
  eexists. split; [exists res; exact Hrep|reflexivity].
Qed.

Lemma remove_Ok fh name (s s' : State W) :
  remove rpcCall v fh name s = (Ok tt, s') ->
  exists rep,
    has_status 0 rep
    /\ log s' = log s ++ [(standard v (RemoveArgs (dirop fh name)), rep)].
Proof.
  unfold remove, bind. rewrite call_run.
  destruct (reply_result _) as [res|err|] eqn:Hrep; try discriminate.
  apply reply_result_Ok in Hrep. intros [= <-].
  eexists. split; [exists res; exact Hrep|reflexivity].
Qed.

Lemma names_self_or_parent_iff (e : EntryPlus.t) :
  is_dot (EntryPlus.FileName e) || is_dotdot (EntryPlus.FileName e) = true
  <-> names_self_or_parent e.
Proof.
  unfold names_self_or_parent, is_dot, is_dotdot.
  rewrite orb_true_iff, !String.eqb_eq. reflexivity.
Qed.

Lemma removeAll_entries_removes recurse deleteDirfh :
  (forall fh (s s' : State W),
      recurse fh s = (Ok tt, s') ->
      exists tr, log s' = log s ++ tr /\ removes v fh tr) ->
  forall entries (s s' : State W),
    removeAll_entries rpcCall recurse v deleteDirfh entries s = (Ok tt, s') ->
    exists ops,
      log s' = log s ++ ops /\ removes_entries v deleteDirfh entries ops.
Proof.
  intros Hrec. induction entries as [|e rest IH]; intros s s' Hrun.
  - injection Hrun as <-. exists []. split; [now rewrite app_nil_r|].
    constructor.
  - cbn [removeAll_entries] in Hrun.
    destruct (is_dot (EntryPlus.FileName e)
              || is_dotdot (EntryPlus.FileName e)) eqn:Hname.
    + apply names_self_or_parent_iff in Hname.
      destruct (IH _ _ Hrun) as (ops & Hlog & Hops).
      exists ops. split; [exact Hlog|]. now constructor.
    + assert (Hproper : ~ names_self_or_parent e).
      { intros Hn. apply names_self_or_parent_iff in Hn. congruence. }
      unfold bind at 1 in Hrun.
      destruct (Type_ (PostOpAttr.Attr (EntryPlus.Attr e)) =? NF3Dir)
        eqn:Htype.
      * apply Z.eqb_eq in Htype. unfold bind at 1 in Hrun.
        destruct (PostOpFH3.IsSet (EntryPlus.Handle e)) eqn:Hset.
        -- destruct (recurse _ s) as [[[]|err|] s1] eqn:Hsub;
             try discriminate.
           destruct (Hrec _ _ _ Hsub) as (sub & Hlog1 & Hremoves).
           destruct (rmDir _ _ _ _ s1) as [[[]|err|] s2] eqn:Hrm;
             try discriminate.
           destruct (rmDir_Ok _ _ _ _ Hrm) as (rep & Hrep & Hlog2).
           destruct (IH _ _ Hrun) as (ops & Hlog3 & Hops).
           exists (sub ++ (standard v
                             (RmDir3Args
                                (dirop deleteDirfh (EntryPlus.FileName e))),
                           rep) :: ops).
           split.
           ++ rewrite Hlog3, Hlog2, Hlog1, <- !app_assoc. reflexivity.
           ++ now apply removes_subtree.
        -- cbn [ret] in Hrun.
           destruct (rmDir _ _ _ _ s) as [[[]|err|] s2] eqn:Hrm;
             try discriminate.
           destruct (rmDir_Ok _ _ _ _ Hrm) as (rep & Hrep & Hlog2).
           destruct (IH _ _ Hrun) as (ops & Hlog3 & Hops).
           exists ((standard v
                      (RmDir3Args (dirop deleteDirfh (EntryPlus.FileName e))),
                    rep) :: ops).
           split.
           ++ rewrite Hlog3, Hlog2, <- !app_assoc. reflexivity.
           ++ now apply removes_unlisted.
      * apply Z.eqb_neq in Htype.
        destruct (remove _ _ _ _ s) as [[[]|err|] s2] eqn:Hrm;
          try discriminate.
        destruct (remove_Ok _ _ _ _ Hrm) as (rep & Hrep & Hlog2).
        destruct (IH _ _ Hrun) as (ops & Hlog3 & Hops).
        exists ((standard v
                   (RemoveArgs (dirop deleteDirfh (EntryPlus.FileName e))),
                 rep) :: ops).
        split.
        -- rewrite Hlog3, Hlog2, <- !app_assoc. reflexivity.
        -- now apply removes_file.
Qed.

Lemma removeAll_removes fuel :
  forall fh (s s' : State W),
    removeAll rpcCall fuel v fh s = (Ok tt, s') ->
    exists tr, log s' = log s ++ tr /\ removes v fh tr.
Proof.
  induction fuel as [|fuel IH]; intros fh s s' Hrun; [discriminate|].
  change (removeAll rpcCall (S fuel) v fh)
    with (bind (ReadDirPlusByFh rpcCall (S fuel) v fh)
            (removeAll_entries rpcCall (removeAll rpcCall fuel v) v fh))
    in Hrun.
  unfold bind in Hrun.
  destruct (ReadDirPlusByFh rpcCall (S fuel) v fh s)
    as [[entries|err|] s1] eqn:Hlist; try discriminate.
  apply ReadDirPlusByFh_loop_sound in Hlist.
  destruct Hlist as (pages & es & _ & _ & Hlog1 & Hpaged & ->).
  destruct (removeAll_entries_removes _ fh IH _ _ _ Hrun)
    as (ops & Hlog2 & Hops).
  exists (pages ++ ops). split.
  - now rewrite Hlog2, Hlog1, app_assoc.
  - econstructor; eassumption.
Qed.

End Remover.

(** C4, as stated the property fails: the listing of [/r] gives the empty
    directory [d] without its handle; [RemoveAll] succeeds, and for [d] it
    has sent RMDIR, not the REMOVE the specification has for an entry
    that is not a directory with a present handle. *)
Lemma RemoveAll_unlisted_directory_counterexample :
  let run := RemoveAll (Exports.serve bare) 2 mounted "r" fresh in
  let d := {| EntryPlus.FileId := 3; EntryPlus.FileName := "d";
              EntryPlus.Cookie := 1;
              EntryPlus.Attr :=
                PostOpAttr.decode (Some (Exports.attr NF3Dir 16877 3));
              EntryPlus.Handle := PostOpFH3.decode None |} in
  let sent := map (fun x => args (fst x)) (log (snd run)) in
  fst run = Ok tt
  /\ In d (match fst (ReadDirPlusByFh (Exports.serve bare) 1 mounted
                        (Some [x02]) fresh) with
           | Ok entries => entries
           | _ => []
           end)
  /\ claimed_removal (Some [x02]) d = RemoveArgs (dirop (Some [x02]) "d")
  /\ ~ In (claimed_removal (Some [x02]) d) sent
  /\ In (RmDir3Args (dirop (Some [x02]) "d")) sent.
Proof.
  repeat split.
  - vm_compute. now left.
  - vm_compute. intuition discriminate.
  - vm_compute. do 3 right. now left.
Qed.

(* ================================================================== *)
(** * Further properties *)

(** ** The calls by handle *)

Section Envelopes.

Variable W : Type.
Variable rpcCall : Request -> W -> Reply * W.

(** A call followed by decoding: one entry in the log, and the errors of
    the transport and of the status come back as they are. *)
Lemma call_then {A : Type} (c : Request) (k : Reader -> M W A)
  (s : State W) :
  (forall res s1, snd (k res s1) = s1) ->
  let rep := fst (rpcCall c (chan s)) in
  let run := bind (call rpcCall c) k s in
  snd run = {| chan := snd (rpcCall c (chan s));
               log := log s ++ [(c, rep)] |}
  /\ (forall err, rep = inl err -> fst run = Fail err)
  /\ (forall n res,
         rep = inr (XUint32 n :: res) -> n <> 0 -> fst run = Fail (ErrNFS n)).
Proof.
  intros Hk rep run. subst rep run. unfold bind. rewrite call_run.
  repeat split.
  - destruct (reply_result _) as [res|err|]; try reflexivity.
    specialize (Hk res {| chan := snd (rpcCall c (chan s));
                          log := log s ++ [(c, fst (rpcCall c (chan s)))] |}).
    now destruct (k res _).
  - intros err ->. reflexivity.
  - intros n res -> Hn. simpl. unfold NFS3Error, NFS3Ok.
    apply Z.eqb_neq in Hn. now rewrite Hn.
Qed.

End Envelopes.

(** X1. Each exported method that works by handle ([MkdirByParentFh],
    [CreateByFh], [GetAttrFh], [GetAttrByFh], [SetAttrByFh],
    [RenameByFh]) makes exactly one call, with the arguments of
    [envelope], whatever the outcome; a transport error and a nonzero NFS
    status come back as the method's error, unchanged. *)
Theorem by_handle_methods_make_one_call :
  forall (W : Type) (rpcCall : Request -> W -> Reply * W) (fuel : nat)
         (v : Target.t) (op : Operation) (a : Args) (s : State W),
    envelope op = Some a ->
    let c := standard v a in
    let rep := fst (rpcCall c (chan s)) in
    let run := perform rpcCall fuel v op s in
    snd run = {| chan := snd (rpcCall c (chan s));
                 log := log s ++ [(c, rep)] |}
    /\ (forall err, rep = inl err -> fst run = Fail err)
    /\ (forall n res,
           rep = inr (XUint32 n :: res) -> n <> 0 ->
           fst run = Fail (ErrNFS n)).
Proof.
  intros until s. intros Henv.
  destruct op; try discriminate; injection Henv as <-; cbn [perform];
    unfold MkdirByParentFh, CreateByFh, GetAttrFh, GetAttrByFh,
      SetAttrByFh, RenameByFh; cbv zeta;
    try rewrite bind_assoc;
    match goal with
    | |- context [bind (call rpcCall ?c) ?k s] =>
        apply (call_then W rpcCall c k s)
    end;
    intros res s1; unfold bind, xdr;
    repeat match goal with
           | |- context [xdr_Read ?d res] =>
               destruct (xdr_Read d res) as [?|[? ?]]
           end; reflexivity.
Qed.

Lemma by_handle_methods_make_one_call_witness :
  let c := standard mounted
             (MkdirArgs (dirop (Some [x01]) "n") (mode_only 493)) in
  log (snd (perform (Exports.serve linked) 0 mounted
              (OpMkdirByParentFh (Some [x01]) "n" 493) fresh))
  = [(c, inr [XUint32 10004])]
  /\ fst (perform (Exports.serve linked) 0 mounted
            (OpMkdirByParentFh (Some [x01]) "n" 493) fresh)
     = Fail (ErrNFS 10004).
Proof.
  destruct (by_handle_methods_make_one_call
              _ (Exports.serve linked) 0 mounted
              (OpMkdirByParentFh (Some [x01]) "n" 493) _ fresh eq_refl)
    as (Hsnd & _ & Hstatus).
  split.
  - rewrite Hsnd. reflexivity.
  - apply (Hstatus 10004 []); [reflexivity|discriminate].
Defined.

(** ** Removing one entry *)

(** X2. [rmDir] and [remove] succeed exactly when the reply has status
    zero: they look at nothing after the status, so a success reply
    without a body is a success. *)
Theorem removal_succeeds_exactly_on_status_zero :
  forall (W : Type) (rpcCall : Request -> W -> Reply * W)
         (v : Target.t) (fh : Bytes) (name : string) (s : State W),
    (fst (rmDir rpcCall v fh name s) = Ok tt
     <-> has_status 0
           (fst (rpcCall (standard v (RmDir3Args (dirop fh name))) (chan s))))
    /\ (fst (remove rpcCall v fh name s) = Ok tt
        <-> has_status 0
              (fst (rpcCall (standard v (RemoveArgs (dirop fh name)))
                      (chan s)))).
Proof.
  intros. split; unfold rmDir, remove, bind; rewrite call_run;
    unfold standard, dirop; cbn [procedure args];
    match goal with
    | |- context [rpcCall ?c (chan s)] =>
        destruct (fst (rpcCall c (chan s))) as [err|res] eqn:Hrep
    end; simpl.
  all: split;
    [ intros Hok
    | intros [res' Hst]; try discriminate; injection Hst as ->; reflexivity ].
  all: try discriminate.
  all: destruct res as [|x res]; simpl in Hok; try discriminate;
    destruct x; simpl in Hok; try discriminate;
    unfold NFS3Error, NFS3Ok in Hok;
    destruct (n =? 0) eqn:E; simpl in Hok; try discriminate;
    apply Z.eqb_eq in E; subst n; now exists res.
Qed.

(* ================================================================== *)
(** ** Paths of a parent and a name *)

Lemma strings_Split_app (q r : string) :
  strings_Split (q ++ String "/" r) "/"
  = strings_Split q "/" ++ strings_Split r "/".
Proof.
  induction q as [|c q IH]; simpl.
  - reflexivity.
  - destruct (Ascii.eqb c "/"); simpl.
    + now rewrite IH.
    + rewrite IH. destruct (strings_Split q "/") eqn:E; simpl.
      * now destruct (strings_Split_nonempty q "/").
      * reflexivity.
Qed.

Lemma strings_Split_plain (name : string) :
  has_slash name = false -> strings_Split name "/" = [name].
Proof.
  induction name as [|c name IH]; simpl; [reflexivity|].
  intros Hc. apply orb_false_iff in Hc. destruct Hc as [Hc Hrest].
  rewrite Hc, (IH Hrest). reflexivity.
Qed.

Lemma strings_LastIndex_plain (name : string) :
  has_slash name = false -> strings_LastIndex name "/" = None.
Proof.
  induction name as [|c name IH]; simpl; [reflexivity|].
  intros Hc. apply orb_false_iff in Hc. destruct Hc as [Hc Hrest].
  now rewrite (IH Hrest), Hc.
Qed.

Lemma strings_LastIndex_app (q name : string) :
  has_slash name = false ->
  strings_LastIndex (q ++ String "/" name) "/" = Some (String.length q).
Proof.
  intros Hname. induction q as [|c q IH]; simpl.
  - now rewrite (strings_LastIndex_plain name Hname).
  - now rewrite IH.
Qed.

Lemma substring_all (s : string) : String.substring 0 (String.length s) s = s.
Proof. induction s as [|c s IH]; simpl; [reflexivity|now rewrite IH]. Qed.

Lemma substring_prefix (a b : string) :
  String.substring 0 (String.length a) (a ++ b) = a.
Proof.
  induction a as [|c a IH]; simpl.
  - now destruct b.
  - now rewrite IH.
Qed.

Lemma substring_suffix (a b : string) :
  String.substring (String.length a)
    (String.length (a ++ b) - String.length a) (a ++ b) = b.
Proof.
  induction a as [|c a IH]; simpl.
  - rewrite Nat.sub_0_r. apply substring_all.
  - exact IH.
Qed.

Lemma append_assoc (a b c : string) :
  ((a ++ b) ++ c)%string = (a ++ (b ++ c))%string.
Proof. induction a as [|x a IH]; simpl; [reflexivity|now rewrite IH]. Qed.

Lemma length_append (a b : string) :
  String.length (a ++ b) = (String.length a + String.length b)%nat.
Proof. induction a as [|x a IH]; simpl; [reflexivity|now rewrite IH]. Qed.

(** [path.Split] of a parent, a slash and a name without slash. *)
Lemma path_Split_parent (q name : string) :
  has_slash name = false ->
  path_Split (q ++ String "/" name) = ((q ++ "/")%string, name).
Proof.
  intros Hname. unfold path_Split.
  rewrite (strings_LastIndex_app q name Hname).
  assert (E : (q ++ String "/" name)%string = ((q ++ "/") ++ name)%string)
    by (now rewrite append_assoc).
  assert (L : S (String.length q) = String.length (q ++ "/"))
    by (rewrite length_append; simpl; lia).
  rewrite L, E. now rewrite substring_prefix, substring_suffix.
Qed.

Lemma path_Split_plain (name : string) :
  has_slash name = false -> path_Split name = (EmptyString, name).
Proof.
  intros Hname. unfold path_Split.
  rewrite (strings_LastIndex_plain name Hname), Nat.sub_0_r, substring_all.
  now destruct name.
Qed.

Section Parents.

Variable W : Type.
Variable rpcCall : Request -> W -> Reply * W.
Variable v : Target.t.

Lemma Lookup_trailing fuel (q : string) (s : State W) :
  Lookup rpcCall fuel v (q ++ "/") s = Lookup rpcCall fuel v q s.
Proof.
  unfold Lookup. destruct fuel as [|fuel]; [reflexivity|].
  cbn [lookupInner]. rewrite strings_Split_trailing.
  unfold bind at 1. rewrite lookupInner_loop_app by discriminate.
  unfold bind.
  destruct (lookupInner_loop _ _ _ _ _ _ _ _ _ _ s)
    as [[[[[fattr h] d] p]|err|] s1]; reflexivity.
Qed.

(** Without [lookupLast], the path of a parent and a name resolves the
    parent in full and returns the name and the parent's handle. *)
Lemma lookupInner_parent fuel (fh : Bytes) (q name : string)
  (lookupOrigin : Bytes) (s : State W) :
  has_slash name = false ->
  lookupInner rpcCall fuel v fh (q ++ String "/" name) false lookupOrigin s
  = bind (lookupInner rpcCall fuel v fh q true lookupOrigin)
      (fun r => let '(_, h, _, _) := r in ret (None, None, name, h)) s.
Proof.
  intros Hname. destruct fuel as [|fuel]; [reflexivity|].
  cbn [lookupInner].
  rewrite strings_Split_app, (strings_Split_plain name Hname).
  rewrite lookupInner_loop_app by discriminate.
  apply bind_ext. now intros [[[fattr h] d] p] s1.
Qed.

Lemma lookupInner_plain fuel (fh : Bytes) (name : string)
  (lookupOrigin : Bytes) (s : State W) :
  has_slash name = false ->
  lookupInner rpcCall (S fuel) v fh name false lookupOrigin s
  = (Ok (None, None, name, fh), s).
Proof.
  intros Hname. cbn [lookupInner].
  now rewrite (strings_Split_plain name Hname).
Qed.

End Parents.

(* ================================================================== *)
(** ** Empty and dot components *)

Section NoOps.

Variable W : Type.
Variable rpcCall : Request -> W -> Reply * W.
Variable v : Target.t.
Variable inner : string -> Bytes -> M W Resolved.

Lemma noop_plain (d : string) :
  is_dot d || is_empty d = true -> has_slash d = false.
Proof.
  unfold is_dot, is_empty. rewrite orb_true_iff, !String.eqb_eq.
  now intros [-> | ->].
Qed.

(** Before another component, an empty or [.] component changes nothing:
    no call, the same [fattr] and [fh], and the next round sets [dirent]
    and [prevFh] anew. *)
Lemma lookupInner_loop_noop lookupLast lookupOrigin d rest
  fattr fh dirent prevFh (s : State W) :
  is_dot d || is_empty d = true -> rest <> [] ->
  lookupInner_loop rpcCall inner v lookupLast lookupOrigin (d :: rest)
    fattr fh dirent prevFh s
  = lookupInner_loop rpcCall inner v lookupLast lookupOrigin rest
      fattr fh dirent prevFh s.
Proof.
  intros Hd Hrest. destruct rest as [|x rest]; [contradiction|].
  cbn [lookupInner_loop andb]. rewrite Hd. reflexivity.
Qed.

Lemma lookupInner_loop_insert lookupLast lookupOrigin ds1 d ds2
  fattr fh dirent prevFh (s : State W) :
  is_dot d || is_empty d = true -> ds2 <> [] ->
  lookupInner_loop rpcCall inner v lookupLast lookupOrigin
    (ds1 ++ d :: ds2) fattr fh dirent prevFh s
  = lookupInner_loop rpcCall inner v lookupLast lookupOrigin
      (ds1 ++ ds2) fattr fh dirent prevFh s.
Proof.
  intros Hd Hds2.
  rewrite !lookupInner_loop_app by (assumption || discriminate).
  apply bind_ext. intros [[[fa h] de] pf] s1.
  now apply lookupInner_loop_noop.
Qed.

(** As the last component, an empty or [.] component makes no call and
    leaves [fattr] and [fh] alone when [lookupLast] is set; it is the
    final component returned, with [fh] as [prevFh]. *)
Lemma lookupInner_loop_noop_last lookupLast lookupOrigin d
  fattr fh dirent prevFh (s : State W) :
  is_dot d || is_empty d = true ->
  lookupInner_loop rpcCall inner v lookupLast lookupOrigin [d]
    fattr fh dirent prevFh s
  = (Ok (if lookupLast then (fattr, fh, d, fh) else (None, None, d, fh)), s).
Proof.
  intros Hd. cbn [lookupInner_loop andb]. destruct lookupLast; simpl.
  - now rewrite Hd.
  - reflexivity.
Qed.

End NoOps.

Section NoOpPaths.

Variable W : Type.
Variable rpcCall : Request -> W -> Reply * W.
Variable v : Target.t.

Lemma lookupInner_noop_between fuel fh (q d r : string) lookupLast
  lookupOrigin (s : State W) :
  is_dot d || is_empty d = true ->
  lookupInner rpcCall fuel v fh (q ++ String "/" (d ++ String "/" r))
    lookupLast lookupOrigin s
  = lookupInner rpcCall fuel v fh (q ++ String "/" r)
      lookupLast lookupOrigin s.
Proof.
  intros Hd. destruct fuel as [|fuel]; [reflexivity|].
  cbn [lookupInner].
  rewrite !strings_Split_app, (strings_Split_plain d (noop_plain d Hd)).
  simpl app. apply lookupInner_loop_insert; [exact Hd|].
  apply strings_Split_nonempty.
Qed.

Lemma lookupInner_noop_first fuel fh (d r : string) lookupLast
  lookupOrigin (s : State W) :
  is_dot d || is_empty d = true ->
  lookupInner rpcCall fuel v fh (d ++ String "/" r) lookupLast lookupOrigin s
  = lookupInner rpcCall fuel v fh r lookupLast lookupOrigin s.
Proof.
  intros Hd. destruct fuel as [|fuel]; [reflexivity|].
  cbn [lookupInner].
  rewrite strings_Split_app, (strings_Split_plain d (noop_plain d Hd)).
  simpl app. apply lookupInner_loop_noop; [exact Hd|].
  apply strings_Split_nonempty.
Qed.

Lemma lookupInner_noop_last fuel fh (p d : string) lookupLast
  lookupOrigin (s : State W) :
  is_dot d || is_empty d = true ->
  lookupInner rpcCall fuel v fh (p ++ String "/" d) lookupLast lookupOrigin s
  = bind (lookupInner rpcCall fuel v fh p true lookupOrigin)
      (fun r => let '(fattr, h, _, _) := r in
                ret (if lookupLast then (fattr, h, d, h)
                     else (None, None, d, h))) s.
Proof.
  intros Hd. destruct fuel as [|fuel]; [reflexivity|].
  cbn [lookupInner].
  rewrite strings_Split_app, (strings_Split_plain d (noop_plain d Hd)).
  rewrite lookupInner_loop_app by discriminate.
  apply bind_ext. intros [[[fattr h] de] prev] s'.
  now apply lookupInner_loop_noop_last.
Qed.

End NoOpPaths.

(** C6, as the code has it.  Empty and [.] components are no-ops in that
    they make no call and leave the attributes and the handle alone:
    before another component (in the middle of a path, or at its head)
    they change nothing of the result, for both values of [lookupLast].
    As the last component they are not without effect on the rest of the
    result.  With [lookupLast = true], resolving [p ++ "/"] or [p ++ "/."]
    gives the attributes and the handle that resolving [p] gives, with
    that last component as the final component and that handle as
    [prevFh].  With [lookupLast = false], it resolves all of [p] and gives
    its handle as [prevFh], with nil attributes and handle.  The empty
    path and the path [.] make no call: they give the start handle as
    [fh] and [prevFh] when [lookupLast = true], and as [prevFh] alone when
    [lookupLast = false]. *)
Theorem lookupInner_empty_and_dot_components :
  forall (W : Type) (rpcCall : Request -> W -> Reply * W)
         (fuel : nat) (v : Target.t) (fh : Bytes) (p q r : string)
         (lookupLast : bool) (lookupOrigin : Bytes) (s : State W),
    (* in the middle and at the head *)
    lookupInner rpcCall fuel v fh (q ++ "/./" ++ r) lookupLast lookupOrigin s
    = lookupInner rpcCall fuel v fh (q ++ "/" ++ r) lookupLast lookupOrigin s
    /\ lookupInner rpcCall fuel v fh (q ++ "//" ++ r) lookupLast
         lookupOrigin s
       = lookupInner rpcCall fuel v fh (q ++ "/" ++ r) lookupLast
           lookupOrigin s
    /\ lookupInner rpcCall fuel v fh ("./" ++ r) lookupLast lookupOrigin s
       = lookupInner rpcCall fuel v fh r lookupLast lookupOrigin s
    /\ lookupInner rpcCall fuel v fh ("/" ++ r) lookupLast lookupOrigin s
       = lookupInner rpcCall fuel v fh r lookupLast lookupOrigin s
    (* at the end *)
    /\ lookupInner rpcCall fuel v fh (p ++ "/") true lookupOrigin s
       = bind (lookupInner rpcCall fuel v fh p true lookupOrigin)
           (fun r => let '(fattr, h, _, _) := r in
                     ret (fattr, h, EmptyString, h)) s
    /\ lookupInner rpcCall fuel v fh (p ++ "/.") true lookupOrigin s
       = bind (lookupInner rpcCall fuel v fh p true lookupOrigin)
           (fun r => let '(fattr, h, _, _) := r in
                     ret (fattr, h, "."%string, h)) s
    /\ lookupInner rpcCall fuel v fh (p ++ "/") false lookupOrigin s
       = bind (lookupInner rpcCall fuel v fh p true lookupOrigin)
           (fun r => let '(_, h, _, _) := r in
                     ret (None, None, EmptyString, h)) s
    /\ lookupInner rpcCall fuel v fh (p ++ "/.") false lookupOrigin s
       = bind (lookupInner rpcCall fuel v fh p true lookupOrigin)
           (fun r => let '(_, h, _, _) := r in
                     ret (None, None, "."%string, h)) s
    (* alone *)
    /\ lookupInner rpcCall (S fuel) v fh "" true lookupOrigin s
       = (Ok (None, fh, EmptyString, fh), s)
    /\ lookupInner rpcCall (S fuel) v fh "" false lookupOrigin s
       = (Ok (None, None, EmptyString, fh), s)
    /\ lookupInner rpcCall (S fuel) v fh "." true lookupOrigin s
       = (Ok (None, fh, "."%string, fh), s)
    /\ lookupInner rpcCall (S fuel) v fh "." false lookupOrigin s
       = (Ok (None, None, "."%string, fh), s).
Proof.
  intros. repeat split.
  - apply (lookupInner_noop_between W rpcCall v fuel fh q "." r). reflexivity.
  - apply (lookupInner_noop_between W rpcCall v fuel fh q "" r). reflexivity.
  - apply (lookupInner_noop_first W rpcCall v fuel fh "." r). reflexivity.
  - apply (lookupInner_noop_first W rpcCall v fuel fh "" r). reflexivity.
  - rewrite (lookupInner_noop_last W rpcCall v fuel fh p "" true)
      by reflexivity.
    apply bind_ext. now intros [[[fattr h] d] prev] s'.
  - rewrite (lookupInner_noop_last W rpcCall v fuel fh p "." true)
      by reflexivity.
    apply bind_ext. now intros [[[fattr h] d] prev] s'.
  - rewrite (lookupInner_noop_last W rpcCall v fuel fh p "" false)
      by reflexivity.
    apply bind_ext. now intros [[[fattr h] d] prev] s'.
  - rewrite (lookupInner_noop_last W rpcCall v fuel fh p "." false)
      by reflexivity.
    apply bind_ext. now intros [[[fattr h] d] prev] s'.
Qed.

(** X3. For a path made of a parent, a slash and a name without slash,
    [Create], [Mkdir], [Remove] and [RmDir] resolve the parent as [Lookup]
    does, symlinks followed, and make their one call on the handle found
    with the name as it is; the name itself is never looked up. *)
Theorem named_entry_methods_resolve_the_parent :
  forall (W : Type) (rpcCall : Request -> W -> Reply * W) (fuel : nat)
         (v : Target.t) (q name : string) (perm : Z) (s : State W),
    has_slash name = false ->
    Create rpcCall fuel v (q ++ String "/" name) perm s
    = bind (Lookup rpcCall fuel v q)
        (fun r => CreateByFh rpcCall v (snd r) name perm) s
    /\ Mkdir rpcCall fuel v (q ++ String "/" name) perm s
       = bind (Lookup rpcCall fuel v q)
           (fun r => MkdirByParentFh rpcCall v (snd r) name perm) s
    /\ Remove rpcCall fuel v (q ++ String "/" name) s
       = bind (Lookup rpcCall fuel v q)
           (fun r => remove rpcCall v (snd r) name) s
    /\ RmDir rpcCall fuel v (q ++ String "/" name) s
       = bind (Lookup rpcCall fuel v q)
           (fun r => rmDir rpcCall v (snd r) name) s.
Proof.
  intros until s. intros Hname. repeat split.
  - unfold Create, Lookup. unfold bind at 1.
    rewrite lookupInner_parent by assumption.
    unfold bind.
    destruct (lookupInner rpcCall fuel v (Target.fh v) q true None s)
      as [[[[[fattr h] d] p]|err|] s1]; reflexivity.
  - unfold Mkdir. rewrite (path_Split_parent q name Hname).
    unfold bind at 1. rewrite Lookup_trailing. unfold bind.
    destruct (Lookup rpcCall fuel v q s) as [[[fattr h]|err|] s1];
      reflexivity.
  - unfold Remove. rewrite (path_Split_parent q name Hname).
    unfold bind at 1. rewrite Lookup_trailing. unfold bind.
    destruct (Lookup rpcCall fuel v q s) as [[[fattr h]|err|] s1];
      reflexivity.
  - unfold RmDir. rewrite (path_Split_parent q name Hname).
    unfold bind at 1. rewrite Lookup_trailing. unfold bind.
    destruct (Lookup rpcCall fuel v q s) as [[[fattr h]|err|] s1];
      reflexivity.
Qed.

Lemma named_entry_methods_resolve_the_parent_witness :
  fst (Remove (Exports.serve linked) 1 mounted "d/g" fresh) = Ok tt
  /\ Remove (Exports.serve linked) 1 mounted "d/g" fresh
     = bind (Lookup (Exports.serve linked) 1 mounted "d")
         (fun r => remove (Exports.serve linked) mounted (snd r) "g") fresh.
Proof.
  split; [reflexivity|].
  apply (named_entry_methods_resolve_the_parent
           _ (Exports.serve linked) 1 mounted "d" "g" 0 fresh eq_refl).
Defined.

(** X4. For a name without slash, [Create], [Mkdir], [Remove] and [RmDir]
    make no LOOKUP: they are their one call on the root handle of the
    mount. *)
Theorem bare_names_go_to_the_mount_root :
  forall (W : Type) (rpcCall : Request -> W -> Reply * W) (fuel : nat)
         (v : Target.t) (name : string) (perm : Z) (s : State W),
    has_slash name = false ->
    Create rpcCall (S fuel) v name perm s
    = CreateByFh rpcCall v (Target.fh v) name perm s
    /\ Mkdir rpcCall (S fuel) v name perm s
       = MkdirByParentFh rpcCall v (Target.fh v) name perm s
    /\ Remove rpcCall (S fuel) v name s = remove rpcCall v (Target.fh v) name s
    /\ RmDir rpcCall (S fuel) v name s = rmDir rpcCall v (Target.fh v) name s.
Proof.
  intros until s. intros Hname. repeat split.
  - unfold Create. unfold bind at 1.
    now rewrite lookupInner_plain by assumption.
  - unfold Mkdir. now rewrite (path_Split_plain name Hname).
  - unfold Remove. now rewrite (path_Split_plain name Hname).
  - unfold RmDir. now rewrite (path_Split_plain name Hname).
Qed.

Lemma bare_names_go_to_the_mount_root_witness :
  map (fun x => args (fst x))
    (log (snd (RmDir (Exports.serve bare) 1 mounted "r" fresh)))
  = [RmDir3Args (dirop (Some [x01]) "r")].
Proof.
  rewrite (proj2 (proj2 (proj2 (bare_names_go_to_the_mount_root
                                  _ (Exports.serve bare) 0 mounted "r" 0
                                  fresh eq_refl)))).
  reflexivity.
Defined.

(* ================================================================== *)
(** ** Which requests a method can make *)

Section Kinds.

Variable W : Type.
Variable rpcCall : Request -> W -> Reply * W.
Variable v : Target.t.

Lemma resolving_inquiring (c : Request) :
  standard_header v c /\ resolving c -> inquiring c.
Proof.
  unfold resolving, inquiring. intros [_ Hc]. now destruct (args c).
Qed.

Lemma Lookup_inquiring fuel p :
  regular rpcCall inquiring (Lookup rpcCall fuel v p).
Proof.
  eapply regular_weaken; [apply resolving_inquiring|apply Lookup_regular].
Qed.

Lemma readlinkFh_inquiring fh :
  regular rpcCall inquiring (readlinkFh rpcCall v fh).
Proof.
  eapply regular_weaken; [apply resolving_inquiring|apply readlinkFh_regular].
Qed.

Lemma ReadDirPlusByFh_loop_inquiring fuel fh cookie cookieVerf entries :
  regular rpcCall inquiring
    (ReadDirPlusByFh_loop rpcCall fuel v fh cookie cookieVerf entries).
Proof.
  revert cookie cookieVerf entries.
  induction fuel as [|fuel IH]; intros; simpl.
  - apply regular_out_of_fuel.
  - repeat first [apply IH | regular_step].
Qed.

Lemma perform_inquiring fuel op :
  read_only op = true ->
  regular rpcCall inquiring (perform rpcCall fuel v op).
Proof.
  intros Hop. destruct op; try discriminate; simpl;
    unfold FSInfo', Access, access, ReadDirPlus, ReadDirPlusByFh, GetAttr,
      GetAttrFh, GetAttrByFh, Readlink;
    repeat first
      [ apply Lookup_inquiring | apply readlinkFh_inquiring
      | apply ReadDirPlusByFh_loop_inquiring | regular_step ].
Qed.

(** The requests of [removeAll]. *)
Lemma rmDir_sweeping fh name :
  is_dot name || is_dotdot name = false ->
  regular rpcCall sweeping (rmDir rpcCall v fh name).
Proof.
  intros Hname. apply orb_false_iff in Hname. destruct Hname as [Hd Hdd].
  apply String.eqb_neq in Hd, Hdd.
  unfold rmDir. apply regular_bind; [|intros; apply regular_ret].
  apply regular_call. now split.
Qed.

Lemma remove_sweeping fh name :
  is_dot name || is_dotdot name = false ->
  regular rpcCall sweeping (remove rpcCall v fh name).
Proof.
  intros Hname. apply orb_false_iff in Hname. destruct Hname as [Hd Hdd].
  apply String.eqb_neq in Hd, Hdd.
  unfold remove. apply regular_bind; [|intros; apply regular_ret].
  apply regular_call. now split.
Qed.

Lemma ReadDirPlusByFh_loop_sweeping fuel fh cookie cookieVerf entries :
  regular rpcCall sweeping
    (ReadDirPlusByFh_loop rpcCall fuel v fh cookie cookieVerf entries).
Proof.
  revert cookie cookieVerf entries.
  induction fuel as [|fuel IH]; intros; simpl.
  - apply regular_out_of_fuel.
  - repeat first [apply IH | regular_step].
Qed.

Lemma removeAll_entries_sweeping recurse deleteDirfh entries :
  (forall fh, regular rpcCall sweeping (recurse fh)) ->
  regular rpcCall sweeping
    (removeAll_entries rpcCall recurse v deleteDirfh entries).
Proof.
  intros Hrec. induction entries as [|entry rest IH]; simpl.
  - apply regular_ret.
  - destruct (is_dot (EntryPlus.FileName entry)
              || is_dotdot (EntryPlus.FileName entry)) eqn:Hname;
      [exact IH|].
    repeat first
      [ apply IH | apply Hrec | now apply rmDir_sweeping
      | now apply remove_sweeping | regular_step ].
Qed.

Lemma removeAll_sweeping fuel deleteDirfh :
  regular rpcCall sweeping (removeAll rpcCall fuel v deleteDirfh).
Proof.
  revert deleteDirfh. induction fuel as [|fuel IH]; intros.
  - apply regular_out_of_fuel.
  - change (removeAll rpcCall (S fuel) v deleteDirfh)
      with (bind (ReadDirPlusByFh rpcCall (S fuel) v deleteDirfh)
              (removeAll_entries rpcCall (removeAll rpcCall fuel v) v
                 deleteDirfh)).
    apply regular_bind; [apply ReadDirPlusByFh_loop_sweeping|].
    intros entries. now apply removeAll_entries_sweeping.
Qed.

End Kinds.

(** X5. The exported methods that only look ([FSInfo], [Lookup],
    [Access], [ReadDirPlus], [ReadDirPlusByFh], [GetAttr], [GetAttrFh],
    [GetAttrByFh], [Readlink]) make FSINFO, LOOKUP, ACCESS, READDIRPLUS,
    GETATTR and READLINK calls only, on every server and whatever the
    outcome: they never send a request that changes the server. *)
Theorem looking_methods_never_change_the_server :
  forall (W : Type) (rpcCall : Request -> W -> Reply * W) (fuel : nat)
         (v : Target.t) (op : Operation) (s : State W),
    read_only op = true ->
    exists tr,
      log (snd (perform rpcCall fuel v op s)) = log s ++ tr
      /\ Forall (fun x => inquiring (fst x) /\ ~ mutating (fst x)) tr.
Proof.
  intros until s. intros Hop.
  destruct (regular_run W rpcCall _ _ s
              (perform_inquiring W rpcCall v fuel op Hop))
    as (tr & _ & HP & Hlog).
  exists tr. split; [exact Hlog|].
  eapply Forall_impl; [|exact HP].
  intros [c rep] Hc. simpl in *. split; [exact Hc|].
  unfold inquiring in Hc. unfold mutating. now destruct (args c).
Qed.

Lemma looking_methods_never_change_the_server_witness :
  exists tr,
    log (snd (perform (Exports.serve linked) 2 mounted (OpReadlink "s")
                fresh)) = tr
    /\ Forall (fun x => inquiring (fst x) /\ ~ mutating (fst x)) tr.
Proof.
  destruct (looking_methods_never_change_the_server
              _ (Exports.serve linked) 2 mounted (OpReadlink "s") fresh
              eq_refl) as (tr & Hlog & Htr).
  exists tr. split; [exact Hlog|exact Htr].
Defined.

(** X6. [removeAll] makes READDIRPLUS, RMDIR and REMOVE calls only, and
    never an RMDIR or a REMOVE of an entry named [.] or [..], on every
    server and whatever the outcome. *)
Theorem removeAll_never_removes_dot_entries :
  forall (W : Type) (rpcCall : Request -> W -> Reply * W) (fuel : nat)
         (v : Target.t) (deleteDirfh : Bytes) (s : State W),
  exists tr,
    log (snd (removeAll rpcCall fuel v deleteDirfh s)) = log s ++ tr
    /\ Forall (fun x => sweeping (fst x)) tr.
Proof.
  intros.
  destruct (regular_run W rpcCall _ _ s
              (removeAll_sweeping W rpcCall v fuel deleteDirfh))
    as (tr & _ & HP & Hlog).
  now exists tr.
Qed.

(* ================================================================== *)
(** ** The arguments of creation and SETATTR *)

Lemma Perm_bounds (m : Z) : 0 <= Perm m <= 511.
Proof.
  unfold Perm. change 511 with (Z.ones 9) at 1 2.
  rewrite Z.land_ones by lia.
  pose proof (Z.mod_pos_bound m (2 ^ 9)) as Hb.
  change (2 ^ 9) with 512 in *. lia.
Qed.

Section Shapes.

Variable W : Type.
Variable rpcCall : Request -> W -> Reply * W.
Variable v : Target.t.

Lemma resolving_shaped (c : Request) :
  standard_header v c /\ resolving c -> shaped c.
Proof.
  unfold resolving, shaped. intros [_ Hc]. now destruct (args c).
Qed.

Lemma inquiring_shaped (c : Request) : inquiring c -> shaped c.
Proof. unfold inquiring, shaped. now destruct (args c). Qed.

Lemma sweeping_shaped (c : Request) : sweeping c -> shaped c.
Proof. unfold sweeping, shaped. now destruct (args c). Qed.

Lemma MkdirByParentFh_shaped fh name perm :
  regular rpcCall shaped (MkdirByParentFh rpcCall v fh name perm).
Proof.
  unfold MkdirByParentFh. cbv zeta. apply regular_bind.
  - apply regular_call. exists (Perm perm).
    split; [apply Perm_bounds|reflexivity].
  - intros res. repeat regular_step.
Qed.

Lemma CreateByFh_shaped fh name perm :
  regular rpcCall shaped (CreateByFh rpcCall v fh name perm).
Proof.
  unfold CreateByFh. apply regular_bind.
  - apply regular_call. split; [reflexivity|]. exists (Perm perm).
    split; [apply Perm_bounds|now left].
  - intros res. repeat regular_step.
Qed.

Lemma perform_shaped fuel op :
  regular rpcCall shaped (perform rpcCall fuel v op).
Proof.
  assert (HL : forall fh p l o,
             regular rpcCall shaped (lookupInner rpcCall fuel v fh p l o))
    by (intros; eapply regular_weaken;
        [apply resolving_shaped | apply lookupInner_regular]).
  assert (HK : forall p, regular rpcCall shaped (Lookup rpcCall fuel v p))
    by (intros; eapply regular_weaken;
        [apply resolving_shaped | apply Lookup_regular]).
  assert (HD : forall fh,
             regular rpcCall shaped (ReadDirPlusByFh rpcCall fuel v fh))
    by (intros; eapply regular_weaken;
        [apply inquiring_shaped | apply ReadDirPlusByFh_loop_inquiring]).
  assert (HA : forall fh, regular rpcCall shaped (removeAll rpcCall fuel v fh))
    by (intros; eapply regular_weaken;
        [apply sweeping_shaped | apply removeAll_sweeping]).
  destruct op; simpl;
    unfold FSInfo', Access, access, ReadDirPlus, Mkdir, Create, GetAttr,
      GetAttrFh, GetAttrByFh, SetAttrByFh, Remove, remove, RmDir, rmDir,
      RemoveAll, Rename, RenameByFh, Readlink, readlinkFh, CreateTruncate;
    repeat first
      [ apply HL | apply HK | apply HD | apply HA
      | apply MkdirByParentFh_shaped | apply CreateByFh_shaped
      | regular_step ].
  2-3: unfold rmDir; repeat regular_step.
  (* CreateTruncate: the one request built in place *)
  apply regular_call. split; [reflexivity|]. exists (Perm perm).
  split; [apply Perm_bounds|]. right. now exists size.
Qed.

End Shapes.

(** X7. On every server and whatever the outcome, every MKDIR request an
    exported method sends sets the mode and nothing else; every CREATE
    request is UNCHECKED and sets the mode and at most the size besides;
    the mode sent lies between 0 and 0o777; every SETATTR request has its
    guard off. *)
Theorem creation_and_SETATTR_requests_are_shaped :
  forall (W : Type) (rpcCall : Request -> W -> Reply * W) (fuel : nat)
         (v : Target.t) (op : Operation) (s : State W),
  exists tr,
    log (snd (perform rpcCall fuel v op s)) = log s ++ tr
    /\ Forall (fun x => shaped (fst x)) tr.
Proof.
  intros.
  destruct (regular_run W rpcCall _ _ s (perform_shaped W rpcCall v fuel op))
    as (tr & _ & HP & Hlog).
  now exists tr.
Qed.

(* ================================================================== *)
(** ** Resolution first, one change last *)

Section Staged.

Variable W : Type.
Variable rpcCall : Request -> W -> Reply * W.
Variable v : Target.t.

Let R (c : Request) : Prop := standard_header v c /\ resolving c.

(** The calls of a run are LOOKUPs and READLINKs, then either nothing,
    and the run is no success, or one request that changes the server. *)
Let staged {A : Type} (m : M W A) : Prop :=
  forall s, exists resolve last,
    log (snd (m s)) = log s ++ resolve ++ last
    /\ Forall (fun x => resolving (fst x)) resolve
    /\ ((last = [] /\ forall a, fst (m s) <> Ok a)
        \/ exists c rep, last = [(c, rep)] /\ mutating c).

Lemma staged_fail {A : Type} (e : error) : staged (@fail W A e).
Proof.
  intros s. exists [], []. simpl. rewrite app_nil_r.
  repeat split; [constructor|]. left. split; [reflexivity|discriminate].
Qed.

Lemma staged_once {A : Type} (c : Request) (k : Reader -> M W A) :
  mutating c -> (forall res s1, snd (k res s1) = s1) ->
  staged (bind (call rpcCall c) k).
Proof.
  intros Hc Hk s. destruct (call_then W rpcCall c k s Hk) as (Hsnd & _).
  exists [], [(c, fst (rpcCall c (chan s)))]. rewrite Hsnd. simpl.
  repeat split; [constructor|]. right. now exists c, (fst (rpcCall c (chan s))).
Qed.

Lemma staged_bind {A B : Type} (m : M W A) (k : A -> M W B) :
  regular rpcCall R m -> (forall a, staged (k a)) -> staged (bind m k).
Proof.
  intros Hm Hk s.
  destruct (regular_run W rpcCall R m s Hm) as (tr & _ & HP & Hlog).
  assert (HR : Forall (fun x => resolving (fst x)) tr)
    by (eapply Forall_impl; [|exact HP]; now intros x [_ Hx]).
  unfold bind. destruct (m s) as [[a|e|] s1]; simpl in Hlog.
  - destruct (Hk a s1) as (resolve & last & Hlog' & Hres & Hlast).
    exists (tr ++ resolve), last. repeat split.
    + now rewrite Hlog', Hlog, <- !app_assoc.
    + apply Forall_app. now split.
    + exact Hlast.
  - exists tr, []. simpl. rewrite app_nil_r. repeat split; try assumption.
    left. split; [reflexivity|discriminate].
  - exists tr, []. simpl. rewrite app_nil_r. repeat split; try assumption.
    left. split; [reflexivity|discriminate].
Qed.

Lemma staged_then_ret {A : Type} (m : M W A) :
  staged m -> staged (bind m (fun _ => ret tt)).
Proof.
  intros Hm s. destruct (Hm s) as (resolve & last & Hlog & Hres & Hlast).
  exists resolve, last. unfold bind.
  destruct (m s) as [[a|e|] s1]; simpl in *; repeat split; try assumption.
  - destruct Hlast as [[_ Hno]|Hone]; [now destruct (Hno a)|now right].
  - destruct Hlast as [[Hl _]|Hone]; [|now right].
    left. split; [exact Hl|discriminate].
  - destruct Hlast as [[Hl _]|Hone]; [|now right].
    left. split; [exact Hl|discriminate].
Qed.

Ltac pure_tail :=
  intros ? ?; unfold bind, xdr;
  repeat match goal with
         | |- context [xdr_Read ?d ?res] =>
             destruct (xdr_Read d res) as [?|[? ?]]
         end; reflexivity.

Lemma perform_staged fuel op :
  path_mutation op = true -> staged (perform rpcCall fuel v op).
Proof.
  intros Hop. destruct op; try discriminate; cbn [perform];
    unfold Mkdir, CreateTruncate, Create, Remove, RmDir, Rename;
    try apply staged_then_ret;
    try match goal with
        | |- context [path_Split ?p] => destruct (path_Split p)
        end;
    (apply staged_bind;
     [first [apply Lookup_regular | apply lookupInner_regular]|]).
  - intros [fattr fh].
    unfold MkdirByParentFh. cbv zeta. apply staged_once; [exact I|pure_tail].
  - intros [[[fattr fh'] newFile] fh].
    apply staged_once; [exact I|pure_tail].
  - intros [[[fattr fh'] newFile] fh].
    unfold CreateByFh. apply staged_once; [exact I|pure_tail].
  - intros [fattr fh].
    unfold remove. apply staged_once; [exact I|now intros].
  - intros [fattr fh].
    unfold rmDir. apply staged_once; [exact I|now intros].
  - intros [[[fattr fh'] fromName] fromFh].
    destruct (is_nil fromFh); [apply staged_fail|].
    apply staged_bind; [apply lookupInner_regular|].
    intros [[[fattr2 fh2] toName] toFh].
    destruct (is_nil toFh); [apply staged_fail|].
    unfold RenameByFh. apply staged_once; [exact I|pure_tail].
Qed.

End Staged.

(** X8. The exported methods that change a named entry ([Mkdir],
    [Create], [CreateTruncate], [Remove], [RmDir], [Rename]) first make
    LOOKUP and READLINK calls only, and then either stop without success
    and without having sent any request that changes the server, or send
    exactly one such request as their last call. *)
Theorem path_methods_change_the_server_once_and_last :
  forall (W : Type) (rpcCall : Request -> W -> Reply * W) (fuel : nat)
         (v : Target.t) (op : Operation) (s : State W),
    path_mutation op = true ->
    exists resolve last,
      log (snd (perform rpcCall fuel v op s)) = log s ++ resolve ++ last
      /\ Forall (fun x => resolving (fst x)) resolve
      /\ ((last = [] /\ forall a, fst (perform rpcCall fuel v op s) <> Ok a)
          \/ exists c rep, last = [(c, rep)] /\ mutating c).
Proof.
  intros until s. intros Hop.
  exact (perform_staged W rpcCall v fuel op Hop s).
Qed.

Lemma path_methods_change_the_server_once_and_last_witness :
  exists resolve last,
    log (snd (perform (Exports.serve linked) 2 mounted (OpRemove "s/g")
                fresh)) = resolve ++ last
    /\ Forall (fun x => resolving (fst x)) resolve
    /\ ((last = []
         /\ forall a, fst (perform (Exports.serve linked) 2 mounted
                             (OpRemove "s/g") fresh) <> Ok a)
        \/ exists c rep, last = [(c, rep)] /\ mutating c).
Proof.
  exact (path_methods_change_the_server_once_and_last
           _ (Exports.serve linked) 2 mounted (OpRemove "s/g") fresh
           eq_refl).
Defined.

(* ================================================================== *)
(** ** Construction *)

(** X9. [NewTargetWithClient] makes one FSINFO call on the handle given.
    It succeeds exactly when the reply has status zero and an FSINFO
    record; the target it returns has the credential, the handle and the
    path given, and that record. *)
Theorem NewTargetWithClient_binds_what_it_is_given :
  forall (W : Type) (rpcCall : Request -> W -> Reply * W)
         (auth : Auth) (fh : Bytes) (dirpath : string)
         (s s' : State W) (vol : Target.t),
    let v0 := {| Target.auth := auth; Target.fh := fh;
                 Target.dirPath := dirpath; Target.fsinfo := None |} in
    let c := standard v0 (FSInfoArgs fh) in
    (NewTargetWithClient rpcCall auth fh dirpath s = (Ok vol, s')
     <-> exists fsinfo res,
           fst (rpcCall c (chan s)) = inr (XUint32 0 :: XFSInfo fsinfo :: res)
           /\ vol = {| Target.auth := auth; Target.fh := fh;
                       Target.dirPath := dirpath;
                       Target.fsinfo := Some fsinfo |}
           /\ s' = {| chan := snd (rpcCall c (chan s));
                      log := log s ++ [(c, fst (rpcCall c (chan s)))] |})
    /\ log (snd (NewTargetWithClient rpcCall auth fh dirpath s))
       = log s ++ [(c, fst (rpcCall c (chan s)))].
Proof.
  intros. unfold NewTargetWithClient, FSInfo'. cbv zeta.
  unfold bind. rewrite call_run. cbn [Target.auth Target.fh Target.dirPath].
  match goal with
  | |- context [rpcCall ?x (chan s)] => change x with c
  end.
  destruct (fst (rpcCall c (chan s))) as [err|res] eqn:Hrep; simpl.
  - split; [|reflexivity]. split; [discriminate|].
    intros (i & r & Hr & _). discriminate.
  - destruct res as [|x res]; simpl.
    { split; [|reflexivity]. split; [discriminate|].
      intros (i & r & Hr & _). discriminate. }
    destruct x; simpl;
      try (split; [|reflexivity]; split; [discriminate|];
           intros (i0 & r & Hr & _); discriminate).
    unfold NFS3Error, NFS3Ok. destruct (n =? 0) eqn:E; simpl.
    + apply Z.eqb_eq in E. subst n.
      destruct res as [|y res]; simpl.
      { split; [|reflexivity]. split; [discriminate|].
        intros (i & r & Hr & _). discriminate. }
      destruct y; simpl;
        try (split; [|reflexivity]; split; [discriminate|];
             intros (i0 & r & Hr & _); discriminate).
      split; [|reflexivity]. split.
      * intros [= <- <-]. now exists i, res.
      * intros (i0 & r & [= <- <-] & -> & ->). reflexivity.
    + split; [|reflexivity]. split; [discriminate|].
      intros (i & r & [= -> _] & _). discriminate.
Qed.

(* ================================================================== *)
(** ** Walks *)

Section WalkSound.

Variable W : Type.
Variable rpcCall : Request -> W -> Reply * W.
Variable v : Target.t.
Variable w : W.

Hypothesis Hquiet : quiet rpcCall reading.

Lemma lookup_run dir name hb attr (s : State W) :
  chan s = w ->
  lookup_reply rpcCall v w dir name hb attr ->
  exists dirattr s',
    lookup rpcCall v dir name s = (Ok (attr, Some hb, dirattr), s')
    /\ chan s' = w.
Proof.
  intros Hs (a & da & res & Hrep & ->). unfold lookup, bind.
  rewrite call_run.
  match goal with
  | |- context [rpcCall ?x (chan s)] =>
      change x with (standard v (Lookup3Args (dirop dir name)))
  end.
  rewrite Hs, Hrep. simpl. eexists. eexists. split; [reflexivity|].
  simpl. now apply Hquiet.
Qed.

Lemma readlinkFh_run link target (s : State W) :
  chan s = w ->
  readlink_reply rpcCall v w link target ->
  exists attr s',
    readlinkFh rpcCall v link s = (Ok (attr, target), s') /\ chan s' = w.
Proof.
  intros Hs (a & res & Hrep). unfold readlinkFh, bind.
  rewrite call_run.
  match goal with
  | |- context [rpcCall ?x (chan s)] =>
      change x with (standard v (Readlink3Arg link))
  end.
  rewrite Hs, Hrep. simpl. eexists. eexists. split; [reflexivity|].
  simpl. now apply Hquiet.
Qed.

(** The loop of [lookupInner], with [n] levels of recursion left for the
    symlinks, ends every walk at the handle of the walk. *)
Lemma lookupInner_loop_walks n origin h ds h' :
  walks rpcCall v w n origin h ds h' ->
  forall fattr dirent prevFh (s : State W),
    chan s = w ->
    exists fattr' dirent' prevFh' s',
      lookupInner_loop rpcCall
        (fun target origin =>
           lookupInner rpcCall n v (Target.fh v) target true origin)
        v true origin ds fattr h dirent prevFh s
      = (Ok (fattr', h', dirent', prevFh'), s')
      /\ chan s' = w.
Proof.
  induction 1 as [n origin h
                 |n origin h d ds h' Hskip Hrest IH
                 |n origin h d ds hb attr h' Hskip Hrep Hsym Hrest IH
                 |n origin h d ds link attr target t h'
                    Hskip Hrep Hsym Horigin Hread Hnested IHnested Hrest IH];
    intros fattr dirent prevFh s Hs.
  - exists fattr, dirent, prevFh, s. now split.
  - cbn [lookupInner_loop negb]. rewrite andb_false_r, Hskip.
    now apply IH.
  - cbn [lookupInner_loop negb]. rewrite andb_false_r, Hskip.
    destruct (lookup_run h d hb attr s Hs Hrep) as (da & s1 & Hl & Hs1).
    unfold bind at 1. rewrite Hl.
    unfold is_symlink in Hsym. rewrite Hsym.
    now apply IH.
  - cbn [lookupInner_loop negb]. rewrite andb_false_r, Hskip.
    destruct (lookup_run h d link attr s Hs Hrep) as (da & s1 & Hl & Hs1).
    unfold bind at 1. rewrite Hl.
    unfold is_symlink in Hsym. rewrite Hsym, Horigin.
    destruct (readlinkFh_run (Some link) target s1 Hs1 Hread)
      as (la & s2 & Hr & Hs2).
    unfold bind at 1. rewrite Hr.
    destruct (IHnested None EmptyString None s2 Hs2)
      as (fa & d' & p' & s3 & Hin & Hs3).
    unfold bind at 1, try. cbn [lookupInner]. rewrite Hin.
    now apply IH.
Qed.

End WalkSound.

(** X10. On a server that the reading calls leave unchanged, when the
    components of a path walk from the root of the mount to a handle
    through at most [n] nested symlinks, [Lookup] with [n + 1] levels of
    recursion returns that handle and no error: empty and [.] components
    are skipped, [..] and every other component is looked up on the
    server in turn, and a symlink is replaced by where its target leads
    from the root of the mount. *)
Theorem Lookup_returns_the_handle_of_the_walk :
  forall (W : Type) (rpcCall : Request -> W -> Reply * W)
         (v : Target.t) (n : nat) (p : string) (h : Bytes) (s : State W),
    quiet rpcCall reading ->
    walks rpcCall v (chan s) n None (Target.fh v) (strings_Split p "/") h ->
    exists fattr,
      fst (Lookup rpcCall (S n) v p s) = Ok (fattr, h)
      /\ chan (snd (Lookup rpcCall (S n) v p s)) = chan s.
Proof.
  intros until s. intros Hquiet Hwalk.
  destruct (lookupInner_loop_walks W rpcCall v (chan s) Hquiet
              n None (Target.fh v) (strings_Split p "/") h Hwalk
              None EmptyString None s eq_refl)
    as (fattr & d & prev & s' & Hrun & Hs').
  exists fattr. unfold Lookup, bind. cbn [lookupInner]. rewrite Hrun.
  now split.
Qed.

(** The same at a concrete input: [/s] is a symlink to [f]; the walk of
    [./s/] skips [.], looks up [s], reads the link, looks up [f] from the
    root and skips the empty last component. *)
Lemma Lookup_returns_the_handle_of_the_walk_witness :
  exists fattr,
    fst (Lookup (Exports.serve linked) 2 mounted "./s/" fresh)
    = Ok (fattr, Some [x03]).
Proof.
  destruct (Lookup_returns_the_handle_of_the_walk
              _ (Exports.serve linked) mounted 1 "./s/" (Some [x03]) fresh
              (serve_quiet linked)) as (fattr & Hrun & _).
  - apply walks_skip; [reflexivity|].
    eapply walks_link with (link := [x02]) (target := "f"%string)
                           (t := Some [x03]).
    + reflexivity.
    + repeat eexists.
    + reflexivity.
    + reflexivity.
    + repeat eexists.
    + eapply walks_plain with (hb := [x03]).
      * reflexivity.
      * repeat eexists.
      * reflexivity.
      * apply walks_done.
    + apply walks_skip; [reflexivity|]. apply walks_done.
  - now exists fattr.
Defined.

(** X11. [Readlink] resolves its path as [Lookup] does, symlinks
    followed, and sends its READLINK for the handle at the end of the
    walk: for a path that names a symlink, that is the handle the link
    leads to, not the handle of the link.  The target string of the reply
    is returned as it is. *)
Theorem Readlink_reads_the_end_of_the_walk :
  forall (W : Type) (rpcCall : Request -> W -> Reply * W)
         (v : Target.t) (n : nat) (p : string) (h : Bytes) (s : State W),
    quiet rpcCall reading ->
    walks rpcCall v (chan s) n None (Target.fh v) (strings_Split p "/") h ->
    let c := standard v (Readlink3Arg h) in
    let run := Readlink rpcCall (S n) v p s in
    (exists tr,
        log (snd run) = log s ++ tr ++ [(c, fst (rpcCall c (chan s)))]
        /\ Forall (fun x => resolving (fst x)) tr)
    /\ (forall target,
           readlink_reply rpcCall v (chan s) h target ->
           fst run = Ok target)
    /\ (forall n' res,
           fst (rpcCall c (chan s)) = inr (XUint32 n' :: res) -> n' <> 0 ->
           fst run = Fail (ErrNFS n')).
Proof.
  intros until s. intros Hquiet Hwalk c run. subst run.
  destruct (lookupInner_loop_walks W rpcCall v (chan s) Hquiet
              n None (Target.fh v) (strings_Split p "/") h Hwalk
              None EmptyString None s eq_refl)
    as (fattr & d & prev & s1 & Hrun & Hs1).
  assert (HL : Lookup rpcCall (S n) v p s = (Ok (fattr, h), s1))
    by (unfold Lookup, bind; cbn [lookupInner]; now rewrite Hrun).
  destruct (regular_run W rpcCall _ _ s (Lookup_regular W rpcCall v (S n) p))
    as (tr & _ & HP & Hlog).
  rewrite HL in Hlog. simpl in Hlog.
  set (k := fun res : Reader =>
              bind (bind (xdr (xdr_Read as_Readlink3Ok res))
                      (fun x => let (readlinkRes, _) := x in
                                @ret W _
                                  (PostOpAttr.Attr
                                     (Readlink3Ok.SymlinkAttr readlinkRes),
                                   Readlink3Ok.Target readlinkRes)))
                (fun x => let (_, target) := x in ret target)).
  assert (E : Readlink rpcCall (S n) v p s = bind (call rpcCall c) k s1).
  { unfold Readlink. unfold bind at 1. rewrite HL.
    unfold readlinkFh. now rewrite bind_assoc. }
  rewrite E. clear E.
  destruct (call_then W rpcCall c k s1) as (Hsnd & _ & Hstatus).
  { intros res s2. unfold k, bind, xdr.
    destruct (xdr_Read as_Readlink3Ok res) as [?|[? ?]]; reflexivity. }
  rewrite Hs1 in *. repeat split.
  - exists tr. split.
    + rewrite Hsnd. simpl. now rewrite Hlog, <- app_assoc.
    + eapply Forall_impl; [|exact HP]. now intros x [_ Hx].
  - intros target (a & res & Hrep). unfold bind at 1. rewrite call_run.
    fold c in Hrep. rewrite Hs1, Hrep. reflexivity.
  - intros n' res Hrep Hn. now apply (Hstatus n' res).
Qed.

(** The same at a concrete input: [/s] is a symlink to the file [f];
    [Readlink "s"] sends READLINK for the handle of [f] and returns the
    INVAL the server answers. *)
Lemma Readlink_reads_the_end_of_the_walk_witness :
  fst (Readlink (Exports.serve linked) 2 mounted "s" fresh)
  = Fail (ErrNFS 22).
Proof.
  destruct (Readlink_reads_the_end_of_the_walk
              _ (Exports.serve linked) mounted 1 "s" (Some [x03]) fresh
              (serve_quiet linked)) as (_ & _ & Hstatus).
  - eapply walks_link with (link := [x02]) (target := "f"%string)
                           (t := Some [x03]).
    + reflexivity.
    + repeat eexists.
    + reflexivity.
    + reflexivity.
    + repeat eexists.
    + eapply walks_plain with (hb := [x03]).
      * reflexivity.
      * repeat eexists.
      * reflexivity.
      * apply walks_done.
    + apply walks_done.
  - apply (Hstatus 22 []); [reflexivity|discriminate].
Defined.

(* ================================================================== *)
(** ** What the guards of Rename keep out *)

Lemma Rename_regular (W : Type) (rpcCall : Request -> W -> Reply * W)
  (fuel : nat) (v : Target.t) (fromPath toPath : string) :
  regular rpcCall resolving_or_rename
    (Rename rpcCall fuel v fromPath toPath).
Proof.
  assert (HL : forall fh p l o,
             regular rpcCall resolving_or_rename
               (lookupInner rpcCall fuel v fh p l o)).
  { intros. eapply regular_weaken; [|apply lookupInner_regular].
    intros c [_ Hc]. unfold resolving in Hc. unfold resolving_or_rename.
    now destruct (args c). }
  unfold Rename. apply regular_bind; [apply HL|].
  intros [[[fattr fh] fromName] fromFh].
  destruct (is_nil fromFh) eqn:Hfrom; [apply regular_fail|].
  apply regular_bind; [apply HL|].
  intros [[[fattr' fh'] toName] toFh].
  destruct (is_nil toFh) eqn:Hto; [apply regular_fail|].
  unfold RenameByFh. apply regular_bind.
  - apply regular_call. now split.
  - intros res. repeat regular_step.
Qed.

(** X12. Besides LOOKUP and READLINK, [Rename] sends nothing but a
    RENAME, and never one with a nil directory handle on either side:
    that, and not a path naming the root, is what its two guards
    exclude. *)
Theorem Rename_never_sends_a_nil_handle :
  forall (W : Type) (rpcCall : Request -> W -> Reply * W) (fuel : nat)
         (v : Target.t) (fromPath toPath : string) (s : State W),
  exists tr,
    log (snd (Rename rpcCall fuel v fromPath toPath s)) = log s ++ tr
    /\ Forall (fun x => resolving_or_rename (fst x)) tr.
Proof.
  intros.
  destruct (regular_run W rpcCall _ _ s
              (Rename_regular W rpcCall fuel v fromPath toPath))
    as (tr & _ & HP & Hlog).
  now exists tr.
Qed.

(* ================================================================== *)
(** ** RemoveAll, from the first RMDIR to the last *)

Section RemoverRuns.

Variable W : Type.
Variable rpcCall : Request -> W -> Reply * W.
Variable v : Target.t.

Lemma serves_cons_inv c rep tr (w w' : W) :
  serves rpcCall w ((c, rep) :: tr) w' ->
  rep = fst (rpcCall c w) /\ serves rpcCall (snd (rpcCall c w)) tr w'.
Proof.
  intros H. inversion H; subst. now split.
Qed.

Lemma serves_app_inv tr1 :
  forall tr2 (w w' : W),
    serves rpcCall w (tr1 ++ tr2) w' ->
    exists w1, serves rpcCall w tr1 w1 /\ serves rpcCall w1 tr2 w'.
Proof.
  induction tr1 as [|[c rep] tr1 IH]; intros tr2 w w' H.
  - exists w. split; [constructor|exact H].
  - simpl in H. apply serves_cons_inv in H. destruct H as [-> H].
    destruct (IH _ _ _ H) as (w1 & H1 & H2).
    exists w1. split; [now constructor|exact H2].
Qed.

Lemma paged_nonempty fh cookie verf tr es :
  paged v fh cookie verf tr es -> (1 <= List.length tr)%nat.
Proof.
  intros Hp. inversion Hp; simpl; lia.
Qed.

(** What one RMDIR or REMOVE does, whatever the reply. *)
Lemma rmDir_run fh name (s : State W) :
  let c := standard v (RmDir3Args (dirop fh name)) in
  let rep := fst (rpcCall c (chan s)) in
  rmDir rpcCall v fh name s
  = (match reply_result rep with
     | Ok _ => Ok tt
     | Fail err => Fail err
     | OutOfFuel => OutOfFuel
     end,
     {| chan := snd (rpcCall c (chan s)); log := log s ++ [(c, rep)] |}).
Proof.
  intros c rep. unfold rmDir, bind. rewrite call_run.
  match goal with
  | |- context [rpcCall ?x (chan s)] => change x with c
  end.
  fold rep. now destruct (reply_result rep).
Qed.

Lemma remove_run fh name (s : State W) :
  let c := standard v (RemoveArgs (dirop fh name)) in
  let rep := fst (rpcCall c (chan s)) in
  remove rpcCall v fh name s
  = (match reply_result rep with
     | Ok _ => Ok tt
     | Fail err => Fail err
     | OutOfFuel => OutOfFuel
     end,
     {| chan := snd (rpcCall c (chan s)); log := log s ++ [(c, rep)] |}).
Proof.
  intros c rep. unfold remove, bind. rewrite call_run.
  match goal with
  | |- context [rpcCall ?x (chan s)] => change x with c
  end.
  fold rep. now destruct (reply_result rep).
Qed.

Lemma has_status_zero_Ok (rep : Reply) :
  has_status 0 rep -> exists res, reply_result rep = Ok res.
Proof.
  intros [res ->]. now exists res.
Qed.

(** The entries of a listing, when the server answers the calls of
    [removes_entries]: every one of them is removed. *)
Lemma removeAll_entries_complete recurse fuel deleteDirfh :
  (forall fh tr (s : State W) w',
      removes v fh tr -> (List.length tr <= fuel)%nat ->
      serves rpcCall (chan s) tr w' ->
      recurse fh s = (Ok tt, {| chan := w'; log := log s ++ tr |})) ->
  forall entries ops,
    removes_entries v deleteDirfh entries ops ->
    forall (s : State W) w',
      (List.length ops <= fuel)%nat ->
      serves rpcCall (chan s) ops w' ->
      removeAll_entries rpcCall recurse v deleteDirfh entries s
      = (Ok tt, {| chan := w'; log := log s ++ ops |}).
Proof.
  intros Hrec entries ops He.
  induction He as [fh
                  |fh e es ops Hname He IH
                  |fh e es sub rep ops Hname Hdir Hset Hsub Hrep He IH
                  |fh e es rep ops Hname Hdir Hset Hrep He IH
                  |fh e es rep ops Hname Hdir Hrep He IH];
    intros s w' Hlen Hs.
  - inversion Hs; subst. destruct s as [w l]. simpl.
    now rewrite app_nil_r.
  - cbn [removeAll_entries].
    apply names_self_or_parent_iff in Hname. rewrite Hname. now apply IH.
  - cbn [removeAll_entries].
    destruct (is_dot (EntryPlus.FileName e)
              || is_dotdot (EntryPlus.FileName e)) eqn:Hn;
      [now apply names_self_or_parent_iff in Hn|].
    unfold is_directory in Hdir. apply Z.eqb_eq in Hdir.
    rewrite Hdir, Hset.
    apply serves_app_inv in Hs. destruct Hs as (w1 & Hs1 & Hs2).
    apply serves_cons_inv in Hs2. destruct Hs2 as [-> Hs2].
    rewrite length_app in Hlen. simpl in Hlen.
    unfold bind at 1. unfold bind at 1.
    rewrite (Hrec _ sub s w1) by (assumption || lia).
    rewrite rmDir_run. cbv zeta. cbn [chan log].
    destruct (has_status_zero_Ok _ Hrep) as [res ->].
    rewrite IH with (w' := w') by (simpl; assumption || lia).
    cbn [log]. now rewrite <- !app_assoc.
  - cbn [removeAll_entries].
    destruct (is_dot (EntryPlus.FileName e)
              || is_dotdot (EntryPlus.FileName e)) eqn:Hn;
      [now apply names_self_or_parent_iff in Hn|].
    unfold is_directory in Hdir. apply Z.eqb_eq in Hdir.
    rewrite Hdir, Hset.
    apply serves_cons_inv in Hs. destruct Hs as [-> Hs].
    simpl in Hlen.
    unfold bind at 1. unfold bind at 1. cbn [ret].
    rewrite rmDir_run. cbv zeta.
    destruct (has_status_zero_Ok _ Hrep) as [res ->].
    rewrite IH with (w' := w') by (simpl; assumption || lia).
    cbn [log]. now rewrite <- !app_assoc.
  - cbn [removeAll_entries].
    destruct (is_dot (EntryPlus.FileName e)
              || is_dotdot (EntryPlus.FileName e)) eqn:Hn;
      [now apply names_self_or_parent_iff in Hn|].
    unfold is_directory in Hdir. apply Z.eqb_neq in Hdir.
    rewrite Hdir.
    apply serves_cons_inv in Hs. destruct Hs as [-> Hs].
    simpl in Hlen.
    unfold bind at 1.
    rewrite remove_run. cbv zeta.
    destruct (has_status_zero_Ok _ Hrep) as [res ->].
    rewrite IH with (w' := w') by (simpl; assumption || lia).
    cbn [log]. now rewrite <- !app_assoc.
Qed.

(** Enough fuel gives the result: when the server answers the calls of
    [removes] and the fuel is at least their number, [removeAll] makes
    exactly these calls and succeeds. *)
Lemma removeAll_complete fuel :
  forall fh tr (s : State W) w',
    removes v fh tr -> (List.length tr <= fuel)%nat ->
    serves rpcCall (chan s) tr w' ->
    removeAll rpcCall fuel v fh s
    = (Ok tt, {| chan := w'; log := log s ++ tr |}).
Proof.
  induction fuel as [|fuel IH]; intros fh tr s w' Hr Hlen Hs;
    inversion Hr as [fh0 pages entries ops Hp He]; subst;
    pose proof (paged_nonempty _ _ _ _ _ Hp) as Hpages;
    rewrite length_app in Hlen; [lia|].
  change (removeAll rpcCall (S fuel) v fh)
    with (bind (ReadDirPlusByFh rpcCall (S fuel) v fh)
            (removeAll_entries rpcCall (removeAll rpcCall fuel v) v fh)).
  apply serves_app_inv in Hs. destruct Hs as (w1 & Hs1 & Hs2).
  unfold bind, ReadDirPlusByFh.
  rewrite (ReadDirPlusByFh_loop_complete W rpcCall v fh pages 0 0 entries Hp
             (S fuel) [] s w1) by (assumption || lia).
  simpl app.
  rewrite (removeAll_entries_complete _ fuel fh IH entries ops He _ w')
    by (simpl; assumption || lia).
  cbn [log]. now rewrite <- app_assoc.
Qed.

(** A [removeAll] that succeeds has made the calls of [removes], and the
    server has answered them. *)
Lemma removeAll_removes_served fuel fh (s s' : State W) :
  removeAll rpcCall fuel v fh s = (Ok tt, s') ->
  exists tr,
    serves rpcCall (chan s) tr (chan s')
    /\ log s' = log s ++ tr
    /\ removes v fh tr.
Proof.
  intros Hrun.
  destruct (removeAll_removes W rpcCall v fuel fh s s' Hrun)
    as (tr & Hlog & Hr).
  destruct (regular_run W rpcCall _ _ s
              (removeAll_sweeping W rpcCall v fuel fh))
    as (tr' & Hs & _ & Hlog').
  rewrite Hrun in Hs, Hlog'. simpl in Hs, Hlog'.
  assert (tr' = tr) by (apply (app_inv_head (log s)); congruence).
  subst tr'.
  now exists tr.
Qed.

End RemoverRuns.

(** C4, as the code has it.  After resolving [path] without its last
    component to [parentDirfh] and [deleteDir], [RemoveAll] sends
    RMDIR(parentDirfh, deleteDir).  If the reply is a success or NOENT it
    returns success; if it is NOTDIR it returns that error.  On any other
    error that is not a not-exist error it goes on, whatever comes of
    it, as the resolution of [deleteDir] under [parentDirfh], then the
    recursive helper on the handle found, then an RMDIR of the original
    name, the first failure ending the run.  The helper deletes every
    entry but [.] and [..], bottom-up, by the calls of [removes]: for an
    entry of directory type, its contents first when its handle is
    present, and RMDIR either way; REMOVE for the other types.  When the
    server answers these calls and the fuel is at least their number, the
    helper makes exactly them, the last RMDIR follows, and its outcome is
    the outcome of [RemoveAll].  Conversely a [RemoveAll] that succeeds
    has made the calls of the resolution, those of [removes], all
    answered by the server, and the last RMDIR, answered with
    success. *)
Theorem RemoveAll_steps :
  forall (W : Type) (rpcCall : Request -> W -> Reply * W) (v : Target.t)
         (fuel : nat) (path : string) (s s1 : State W)
         (fattr : option Fattr) (fh : Bytes)
         (deleteDir : string) (parentDirfh : Bytes),
    lookupInner rpcCall fuel v (Target.fh v) path false None s
    = (Ok (fattr, fh, deleteDir, parentDirfh), s1) ->
    let c := standard v (RmDir3Args (dirop parentDirfh deleteDir)) in
    let rep := fst (rpcCall c (chan s1)) in
    let s2 := {| chan := snd (rpcCall c (chan s1));
                 log := log s1 ++ [(c, rep)] |} in
    (has_status 0 rep \/ has_status NFS3ErrNoEnt rep ->
     RemoveAll rpcCall fuel v path s = (Ok tt, s2))
    /\ (has_status NFS3ErrNotDir rep ->
        RemoveAll rpcCall fuel v path s = (Fail (ErrNFS NFS3ErrNotDir), s2))
    /\ (forall err,
           reply_result rep = Fail err ->
           os_IsNotExist err = false ->
           IsNotDirError err = false ->
           (* whatever the outcome *)
           RemoveAll rpcCall fuel v path s
           = bind (lookupInner rpcCall fuel v parentDirfh deleteDir true None)
               (fun r =>
                  let '(_, deleteDirfh, _, _) := r in
                  bind (removeAll rpcCall fuel v deleteDirfh)
                    (fun _ => rmDir rpcCall v parentDirfh deleteDir)) s2
           (* enough fuel gives the result *)
           /\ (forall fattr' target dirent' prev' s3 sub w4,
                  lookupInner rpcCall fuel v parentDirfh deleteDir true None s2
                  = (Ok (fattr', target, dirent', prev'), s3) ->
                  removes v target sub ->
                  serves rpcCall (chan s3) sub w4 ->
                  (List.length sub <= fuel)%nat ->
                  let last := fst (rpcCall c w4) in
                  RemoveAll rpcCall fuel v path s
                  = (match reply_result last with
                     | Ok _ => Ok tt
                     | Fail e => Fail e
                     | OutOfFuel => OutOfFuel
                     end,
                     {| chan := snd (rpcCall c w4);
                        log := log s3 ++ sub ++ [(c, last)] |}))
           (* a success is one of these *)
           /\ (forall s',
                  RemoveAll rpcCall fuel v path s = (Ok tt, s') ->
                  exists fattr' target dirent' prev' s3 resolve sub w4,
                    lookupInner rpcCall fuel v parentDirfh deleteDir true
                      None s2
                    = (Ok (fattr', target, dirent', prev'), s3)
                    /\ log s3 = log s2 ++ resolve
                    /\ Forall (fun x => resolving (fst x)) resolve
                    /\ removes v target sub
                    /\ serves rpcCall (chan s3) sub w4
                    /\ has_status 0 (fst (rpcCall c w4))
                    /\ s' = {| chan := snd (rpcCall c w4);
                               log := log s3 ++ sub
                                      ++ [(c, fst (rpcCall c w4))] |})).
Proof.
  intros until parentDirfh. intros Hres c rep s2.
  assert (Hstart :
    RemoveAll rpcCall fuel v path s
    = match reply_result rep with
      | Ok _ => (Ok tt, s2)
      | Fail err =>
          if os_IsNotExist err then (Ok tt, s2)
          else if IsNotDirError err then (Fail err, s2)
          else
            bind (lookupInner rpcCall fuel v parentDirfh deleteDir true None)
              (fun r =>
                 let '(_, deleteDirfh, _, _) := r in
                 bind (removeAll rpcCall fuel v deleteDirfh)
                   (fun _ => rmDir rpcCall v parentDirfh deleteDir)) s2
      | OutOfFuel => (OutOfFuel, s2)
      end).
  { unfold RemoveAll. unfold bind at 1. rewrite Hres.
    unfold bind at 1, try, rmDir at 1. unfold bind at 1. rewrite call_run.
    match goal with
    | |- context [rpcCall ?x (chan s1)] => change x with c
    end.
    fold rep. fold s2.
    destruct (reply_result rep) as [res|err|]; try reflexivity.
    cbn [ret].
    destruct (os_IsNotExist err); [reflexivity|].
    destruct (IsNotDirError err); reflexivity. }
  rewrite Hstart. clear Hstart. split; [|split].
  - intros [[res ->] | [res ->]]; reflexivity.
  - intros [res ->]. reflexivity.
  - intros err Hrep Hne Hnd. rewrite Hrep, Hne, Hnd.
    split; [reflexivity|]. split.
    + intros fattr' target dirent' prev' s3 sub w4 Hl Hsub Hs Hlen last.
      unfold bind at 1. rewrite Hl. unfold bind at 1.
      rewrite (removeAll_complete W rpcCall v fuel target sub s3 w4)
        by assumption.
      rewrite rmDir_run. cbv zeta. cbn [chan log]. fold c. fold last.
      now rewrite <- app_assoc.
    + intros s'. unfold bind at 1.
      destruct (lookupInner rpcCall fuel v parentDirfh deleteDir true None
                  s2)
        as [[[[[fattr' target] dirent'] prev']|e|] s3] eqn:Hl;
        try discriminate.
      unfold bind at 1.
      destruct (removeAll rpcCall fuel v target s3) as [[[]|e|] s4] eqn:Hr;
        try discriminate.
      rewrite rmDir_run. cbv zeta. fold c.
      destruct (reply_result (fst (rpcCall c (chan s4)))) as [res|e|]
        eqn:Hlast; try discriminate.
      intros [= <-].
      destruct (regular_run W rpcCall _ _ s2
                  (lookupInner_regular W rpcCall v fuel parentDirfh
                     deleteDir true None)) as (resolve & _ & HP & Hlog3).
      rewrite Hl in Hlog3. simpl in Hlog3.
      destruct (removeAll_removes_served W rpcCall v fuel target s3 s4 Hr)
        as (sub & Hs & Hlog4 & Hsub).
      exists fattr', target, dirent', prev', s3, resolve, sub, (chan s4).
      repeat split; try assumption.
      * eapply Forall_impl; [|exact HP]. now intros x [_ Hx].
      * exists res. now apply reply_result_Ok.
      * now rewrite Hlog4, <- app_assoc.
Qed.

(** The same at a concrete input: [/r] holds [.], [..], a directory [a]
    with a file [g] and a file [f]; the first RMDIR fails with NOTEMPTY;
    the helper makes the six calls of [removes] on the handle of [/r],
    the fuel is enough for them, and [RemoveAll] succeeds with the last
    RMDIR. *)
Lemma RemoveAll_steps_witness :
  let serve := Exports.serve (tree true) in
  let c := standard mounted (RmDir3Args (dirop (Some [x01]) "r")) in
  exists sub (s3 : State Exports.Removed) w4,
    removes mounted (Some [x02]) sub
    /\ serves serve (chan s3) sub w4
    /\ List.length sub = 6%nat
    /\ has_status 0 (fst (serve c w4))
    /\ RemoveAll serve 6 mounted "r" fresh
       = (Ok tt, {| chan := snd (serve c w4);
                    log := log s3 ++ sub ++ [(c, fst (serve c w4))] |}).
Proof.
  intros serve c.
  destruct (RemoveAll_steps _ serve mounted 6 "r" fresh fresh None None "r"
              (Some [x01]) eq_refl)
    as (_ & _ & Hthird).
  destruct (Hthird (ErrNFS NFS3ErrNotEmpty) eq_refl eq_refl eq_refl)
    as (_ & Henough & Hsuccess).
  destruct (Hsuccess (snd (RemoveAll serve 6 mounted "r" fresh)) eq_refl)
    as (fattr' & target & dirent' & prev' & s3 & resolve & sub & w4
        & Hl & Hlog3 & Hres & Hsub & Hs & Hlast & Hend).
  vm_compute in Hl. injection Hl as <- <- <- <- <-.
  assert (Hlen : List.length sub = 6%nat).
  { pose proof (f_equal (fun st => List.length (log st)) Hend) as Hall.
    cbn beta in Hall. cbn [log] in Hall. rewrite !length_app in Hall.
    match type of Hall with
    | ?l = _ => let n := eval vm_compute in l in change l with n in Hall
    end.
    cbn [List.length] in Hall. lia. }
  eexists sub, _, w4.
  split; [exact Hsub|]. split; [exact Hs|]. split; [exact Hlen|].
  split; [exact Hlast|].
  rewrite (Henough _ _ _ _ _ sub w4 eq_refl Hsub Hs) by lia. cbv zeta.
  destruct (has_status_zero_Ok _ Hlast) as [res ->]. reflexivity.
Defined.
